(** * BeautyConnect backend: a shallow embedding of [main.py] and [schemas.py]

    The development follows the layering of the repository:

    - the fragment of Python's dynamic values that the handlers touch
      ([dict.get], truthiness, [str], [float], [int]), in module [Py];
    - the declared shapes of [schemas.py] with their field constraints,
      and the request and response shapes of [main.py], one module each;
    - the document store behind [create_document] and [get_documents];
    - the handlers of [main.py] and the request dispatch that FastAPI
      performs around them.

    Numbers typed [float] in the source are IEEE 754 doubles, in the
    Standard Library's specification of them: infinities and NaN are
    values like any other, and the comparisons are those of the
    processor.  The liveness and diagnostic endpoints, which do not go
    through the gateway, are left out. *)

From Stdlib Require Import QArith SpecFloat.
From stdpp Require Import gmap strings list fin_maps pretty.

Set Warnings "-register-all".

Open Scope string_scope.
Open Scope list_scope.
Open Scope Z_scope.

(** ** Results *)

Inductive result (E A : Type) : Type :=
| Ok (a : A)
| Err (e : E).
Arguments Ok {E A} a.
Arguments Err {E A} e.

(** ** Python values *)

Module Py.

(** What a stored document or a handler expression can hold.  A
    [VFloat] is a double as the interpreter holds it, in the normal form
    that rounding produces, or an infinity, or NaN.  [VUrl] is the URL
    object that pydantic makes of a field typed [HttpUrl]; it is no
    text, though [str] gives its text. *)
Inductive value : Type :=
| VNone
| VBool (b : bool)
| VInt (z : Z)
| VFloat (x : spec_float)
| VStr (s : string)
| VList (l : list value)
| VObjectId (n : N)
| VDatetime (t : Z)
| VUrl (u : string).

(** A [dict] with text keys. *)
Abbreviation doc := (gmap string value).

(** The exceptions that can reach a handler's [except Exception]. *)
Inductive exn : Type :=
| StoreUnavailable
| StoreWriteError
| ValidationError (fields : list string)
| TypeError
| ValueError
| OverflowError
| IndexError.

(** The double nearest to an integer, and the double nearest to the
    decimal literal [n / 10^k]. *)
Definition double (z : Z) : spec_float := binary_normalize 53 1024 z 0 false.
Definition decimal (n : Z) (k : nat) : spec_float :=
  SFdiv 53 1024 (double n) (double (10 ^ Z.of_nat k)).
Arguments double : simpl never.
Arguments decimal : simpl never.

Definition is_nan (x : spec_float) : bool :=
  match x with S754_nan => true | _ => false end.

(** Neither an infinity nor NaN. *)
Definition is_finite (x : spec_float) : bool :=
  match x with S754_zero _ | S754_finite _ _ _ => true | _ => false end.

(** The integer part of a finite double, towards zero. *)
Definition trunc (x : spec_float) : Z :=
  match x with
  | S754_finite s m e => cond_Zopp s (Z.shiftl (Z.pos m) e)
  | _ => 0
  end.

(** Whether a finite double has no fractional part. *)
Definition is_integral (x : spec_float) : bool :=
  match x with
  | S754_zero _ => true
  | S754_finite _ m e => bool_decide (Z.shiftl (Z.shiftl (Z.pos m) e) (- e) = Z.pos m)
  | _ => false
  end.

Fixpoint value_eqb (a b : value) {struct a} : bool :=
  match a, b with
  | VNone, VNone => true
  | VBool x, VBool y => bool_decide (x = y)
  | VInt x, VInt y => bool_decide (x = y)
  | VFloat x, VFloat y => SFeqb x y
  | VStr x, VStr y => bool_decide (x = y)
  | VList x, VList y =>
      (fix go (l1 l2 : list value) {struct l1} : bool :=
         match l1, l2 with
         | [], [] => true
         | v1 :: l1', v2 :: l2' => value_eqb v1 v2 && go l1' l2'
         | _, _ => false
         end) x y
  | VObjectId x, VObjectId y => bool_decide (x = y)
  | VDatetime x, VDatetime y => bool_decide (x = y)
  | VUrl x, VUrl y => bool_decide (x = y)
  | _, _ => false
  end.

(** [d.get(k)] and [d.get(k, dflt)]. *)
Definition get (d : doc) (k : string) : value := default VNone (d !! k).
Definition get_or (d : doc) (k : string) (dflt : value) : value :=
  default dflt (d !! k).

(** Truth value testing, as used by [if x:], [x or y] and [bool(x)]. *)
Definition truthy (v : value) : bool :=
  match v with
  | VNone => false
  | VBool b => b
  | VInt z => negb (bool_decide (z = 0))
  | VFloat x => negb (SFeqb x (double 0))
  | VStr s => negb (bool_decide (s = ""))
  | VList l => negb (bool_decide (l = []))
  | VObjectId _ => true
  | VDatetime _ => true
  | VUrl _ => true
  end.

(** [x or y] *)
Definition or_else (x y : value) : value := if truthy x then x else y.

(** Number of bytes of the UTF-8 sequence that starts with byte [a]. *)
Definition utf8_width (a : Ascii.ascii) : nat :=
  let n := Ascii.N_of_ascii a in
  if (n <? 128)%N then 1%nat
  else if (n <? 224)%N then 2%nat
  else if (n <? 240)%N then 3%nat
  else 4%nat.

(** The first character of a text, as a text. *)
Definition first_char (s : string) : string :=
  match s with
  | EmptyString => ""
  | String a _ => String.substring 0 (utf8_width a) s
  end.

(** [x[0]] *)
Definition index0 (x : value) : result exn value :=
  match x with
  | VList (v :: _) => Ok v
  | VList [] => Err IndexError
  | VStr s => if bool_decide (s = "") then Err IndexError else Ok (VStr (first_char s))
  | _ => Err TypeError
  end.

(** The text of a store identifier. *)
Definition oid_str (n : N) : string := pretty n.

(** What the interpreter and the validation library provide and the
    repository only calls: the two format validators of pydantic, the
    reading of numbers out of text, the reading of a timestamp out of
    anything that is not one already, and [str] on floats, lists and
    timestamps.  A format validator either refuses a text or returns it
    in normal form (an address with its domain in lower case, a URL with
    its path filled in); an address it returns is in normal form, so it
    is accepted again and returned as it is. *)
Class Runtime : Type := {
  EmailStr : string → option string;
  EmailStr_normal (s e : string) : EmailStr s = Some e → EmailStr e = Some e;
  HttpUrl : string → option string;
  float_of_str : string → option spec_float;
  int_of_str : string → option Z;
  datetime_of : value → option Z;
  str_other : value → string;
}.

Section builtins.
Context `{Runtime}.

(** [str(x)] *)
Definition str (v : value) : string :=
  match v with
  | VNone => "None"
  | VBool true => "True"
  | VBool false => "False"
  | VInt z => pretty z
  | VStr s => s
  | VObjectId n => oid_str n
  | VUrl u => u
  | _ => str_other v
  end.

(** [float(x)]: an integer is rounded to the nearest double, and one too
    large for a double raises. *)
Definition float (v : value) : result exn spec_float :=
  match v with
  | VBool b => Ok (double (if b then 1 else 0))
  | VInt z => if is_finite (double z) then Ok (double z) else Err OverflowError
  | VFloat x => Ok x
  | VStr s => match float_of_str s with Some x => Ok x | None => Err ValueError end
  | _ => Err TypeError
  end.

(** [int(x)]: a float is truncated towards zero; an infinity and NaN
    raise. *)
Definition int (v : value) : result exn Z :=
  match v with
  | VBool b => Ok (if b then 1 else 0)
  | VInt z => Ok z
  | VFloat x =>
      if is_finite x then Ok (trunc x)
      else if is_nan x then Err ValueError else Err OverflowError
  | VStr s => match int_of_str s with Some z => Ok z | None => Err ValueError end
  | _ => Err TypeError
  end.
End builtins.

End Py.

Import Py.

(** ** Declared shapes ([schemas.py]) *)

(** *** Field declarations, as the schema endpoint reports them *)

Inductive annotation : Type :=
| Tstr
| Tfloat
| Tint
| Tbool
| Tdatetime
| TEmailStr
| THttpUrl
| TList (a : annotation)
| TOptional (a : annotation)
| TLiteral (alts : list string).

Inductive default_spec : Type :=
| Required
| Default (v : value)
| DefaultFactoryList.

Record field_decl : Type := Field {
  fname : string;
  annot : annotation;
  dflt : default_spec;
  ge_bound : option Q;
  le_bound : option Q;
}.

(** [name: T] and [name: T = default], without bounds. *)
Definition plain (n : string) (a : annotation) (d : default_spec) : field_decl :=
  Field n a d None None.

Inductive model : Type :=
| MasterModel
| ClientModel
| ServiceModel
| BookingModel
| ReviewModel
| PortfolioitemModel.

Definition booking_statuses : list string :=
  ["pending"; "confirmed"; "completed"; "cancelled"].

Definition model_name (m : model) : string :=
  match m with
  | MasterModel => "Master"
  | ClientModel => "Client"
  | ServiceModel => "Service"
  | BookingModel => "Booking"
  | ReviewModel => "Review"
  | PortfolioitemModel => "Portfolioitem"
  end.

Definition model_fields (m : model) : list field_decl :=
  match m with
  | MasterModel =>
      [ plain "name" Tstr Required;
        plain "email" (TOptional TEmailStr) (Default VNone);
        plain "phone" (TOptional Tstr) (Default VNone);
        plain "city" (TOptional Tstr) (Default VNone);
        plain "bio" (TOptional Tstr) (Default VNone);
        plain "avatar" (TOptional THttpUrl) (Default VNone);
        plain "skills" (TList Tstr) DefaultFactoryList;
        Field "rating" Tfloat (Default (VInt 0)) (Some 0%Q) (Some 5%Q);
        Field "reviews_count" Tint (Default (VInt 0)) (Some 0%Q) None ]
  | ClientModel =>
      [ plain "name" Tstr Required;
        plain "email" TEmailStr Required;
        plain "phone" (TOptional Tstr) (Default VNone);
        plain "avatar" (TOptional THttpUrl) (Default VNone) ]
  | ServiceModel =>
      [ plain "title" Tstr Required;
        plain "category" Tstr Required;
        plain "subcategory" (TOptional Tstr) (Default VNone);
        plain "description" (TOptional Tstr) (Default VNone);
        Field "price" Tfloat Required (Some 0%Q) None;
        Field "duration_min" Tint Required (Some 10%Q) (Some 480%Q);
        plain "master_id" (TOptional Tstr) (Default VNone) ]
  | BookingModel =>
      [ plain "master_id" Tstr Required;
        plain "client_id" Tstr Required;
        plain "service_id" Tstr Required;
        plain "datetime_utc" Tdatetime Required;
        plain "status" (TLiteral booking_statuses) (Default (VStr "pending"));
        plain "notes" (TOptional Tstr) (Default VNone) ]
  | ReviewModel =>
      [ plain "master_id" Tstr Required;
        plain "client_id" Tstr Required;
        Field "rating" Tint Required (Some 1%Q) (Some 5%Q);
        plain "comment" (TOptional Tstr) (Default VNone) ]
  | PortfolioitemModel =>
      [ plain "master_id" Tstr Required;
        plain "title" (TOptional Tstr) (Default VNone);
        plain "image_url" THttpUrl Required;
        plain "tags" (TList Tstr) DefaultFactoryList ]
  end.

(** [ALL_SCHEMAS], a dict literal: its items in source order. *)
Definition ALL_SCHEMAS : list (string * model) :=
  [ ("master", MasterModel);
    ("client", ClientModel);
    ("service", ServiceModel);
    ("booking", BookingModel);
    ("review", ReviewModel);
    ("portfolioitem", PortfolioitemModel) ].

(** The description a model class gives of itself
    ([model.model_json_schema()]): its title, its fields, and the names
    of the fields that have no default. *)
Record json_schema : Type := JsonSchema {
  title : string;
  properties : list field_decl;
  required_fields : list string;
}.

Definition is_required (f : field_decl) : bool :=
  match dflt f with Required => true | _ => false end.

Definition model_json_schema (m : model) : json_schema :=
  {| title := model_name m;
     properties := model_fields m;
     required_fields := fname <$> filter (λ f, is_required f = true) (model_fields m) |}.

(** *** Validation *)

(** The outcome of validating a set of keyword arguments: the record, or
    the report, which names the field of every error found, in
    declaration order. *)
Definition V (A : Type) : Type := result (list string) A.

Definition vap {A B} (f : V (A → B)) (x : V A) : V B :=
  match f, x with
  | Ok g, Ok a => Ok (g a)
  | Ok _, Err e => Err e
  | Err e, Ok _ => Err e
  | Err e1, Err e2 => Err (e1 ++ e2)
  end.
Infix "<*>" := vap (at level 61, left associativity).

(** One field of the keyword arguments [kw], read by [conv]. *)
Definition field {A} (kw : doc) (name : string)
    (conv : option value → option A) : V A :=
  match conv (kw !! name) with
  | Some a => Ok a
  | None => Err [name]
  end.

(** [name: T] or [Field(...)]: the argument must be there. *)
Definition required {A} (conv : value → option A) (o : option value) : option A :=
  match o with
  | Some v => conv v
  | None => None
  end.

(** [name: Optional[T] = None] *)
Definition optional {A} (conv : value → option A) (o : option value)
    : option (option A) :=
  match o with
  | None | Some VNone => Some None
  | Some v => Some <$> conv v
  end.

(** [name: T = d] *)
Definition defaulted {A} (d : A) (conv : value → option A) (o : option value)
    : option A :=
  match o with
  | None => Some d
  | Some v => conv v
  end.

Definition check {A} (p : A → bool) (a : A) : option A :=
  if p a then Some a else None.

(** [name: List[T] = Field(default_factory=list)].  An argument that is
    no list is one error; in a list, every item that [conv] refuses is an
    error of its own, all of them under the field's name. *)
Definition list_items {A} (name : string) (conv : value → option A)
    (l : list value) : V (list A) :=
  foldr (λ v rest, Ok cons <*> from_option Ok (Err [name]) (conv v) <*> rest)
    (Ok []) l.

Definition list_field {A} (kw : doc) (name : string) (conv : value → option A)
    : V (list A) :=
  match kw !! name with
  | None => Ok []
  | Some (VList l) => list_items name conv l
  | Some _ => Err [name]
  end.

Section converters.
Context `{Runtime}.

Definition as_str (v : value) : option string :=
  match v with VStr s => Some s | _ => None end.

Definition as_bool (v : value) : option bool :=
  match v with VBool b => Some b | _ => None end.

(** Any float is taken, the infinities and NaN included; an integer is
    taken when it fits a double. *)
Definition as_float (v : value) : option spec_float :=
  match v with
  | VBool b => Some (double (if b then 1 else 0))
  | VInt z => check is_finite (double z)
  | VFloat x => Some x
  | VStr s => float_of_str s
  | _ => None
  end.

(** A float is taken for an integer only when it is finite, has no
    fractional part and lies strictly between [-2^63] and [2^63]. *)
Definition as_int (v : value) : option Z :=
  match v with
  | VBool b => Some (if b then 1 else 0)
  | VInt z => Some z
  | VFloat x =>
      if is_finite x && is_integral x && bool_decide (Z.abs (trunc x) < 2 ^ 63)
      then Some (trunc x) else None
  | VStr s => int_of_str s
  | _ => None
  end.

Definition as_datetime (v : value) : option Z :=
  match v with
  | VDatetime t => Some t
  | _ => datetime_of v
  end.

(** The address in normal form. *)
Definition as_EmailStr (v : value) : option string :=
  as_str v ≫= EmailStr.

(** The text of the URL object that the field will hold. *)
Definition as_HttpUrl (v : value) : option string :=
  match v with
  | VStr s | VUrl s => HttpUrl s
  | _ => None
  end.

Definition as_literal (alts : list string) (v : value) : option string :=
  as_str v ≫= check (λ s, bool_decide (s ∈ alts)).

(** [ge=] and [le=].  On a float the value is refused when it compares
    below the lower bound, or above the upper one; NaN compares neither
    way. *)
Definition ge_float (lo : Z) : spec_float → option spec_float :=
  check (λ x, negb (SFltb x (double lo))).
Definition le_float (hi : Z) : spec_float → option spec_float :=
  check (λ x, negb (SFltb (double hi) x)).
Definition ge_int (lo : Z) : Z → option Z := check (λ z, bool_decide (lo ≤ z)).
Definition le_int (hi : Z) : Z → option Z := check (λ z, bool_decide (z ≤ hi)).
End converters.

Definition opt_str (o : option string) : value := from_option VStr VNone o.
Definition opt_url (o : option string) : value := from_option VUrl VNone o.

(** [class Master(BaseModel)] *)
Module Master.
Record t : Type := mk {
  name : string;
  email : option string;
  phone : option string;
  city : option string;
  bio : option string;
  avatar : option string;
  skills : list string;
  rating : spec_float;
  reviews_count : Z;
}.

(** [Master(...)] on keyword arguments [kw] *)
Definition validate `{Runtime} (kw : doc) : V t :=
  Ok mk
    <*> field kw "name" (required as_str)
    <*> field kw "email" (optional as_EmailStr)
    <*> field kw "phone" (optional as_str)
    <*> field kw "city" (optional as_str)
    <*> field kw "bio" (optional as_str)
    <*> field kw "avatar" (optional as_HttpUrl)
    <*> list_field kw "skills" as_str
    <*> field kw "rating"
          (defaulted (double 0) (λ v, (as_float v ≫= ge_float 0) ≫= le_float 5))
    <*> field kw "reviews_count" (defaulted 0 (λ v, as_int v ≫= ge_int 0)).

(** [m.model_dump()]: the avatar stays the URL object it was validated
    into. *)
Definition dump (m : t) : doc :=
  {[ "name" := VStr (name m);
     "email" := opt_str (email m);
     "phone" := opt_str (phone m);
     "city" := opt_str (city m);
     "bio" := opt_str (bio m);
     "avatar" := opt_url (avatar m);
     "skills" := VList (VStr <$> skills m);
     "rating" := VFloat (rating m);
     "reviews_count" := VInt (reviews_count m) ]}.
End Master.

(** [class Client(BaseModel)] *)
Module Client.
Record t : Type := mk {
  name : string;
  email : string;
  phone : option string;
  avatar : option string;
}.

Definition validate `{Runtime} (kw : doc) : V t :=
  Ok mk
    <*> field kw "name" (required as_str)
    <*> field kw "email" (required as_EmailStr)
    <*> field kw "phone" (optional as_str)
    <*> field kw "avatar" (optional as_HttpUrl).

Definition dump (c : t) : doc :=
  {[ "name" := VStr (name c);
     "email" := VStr (email c);
     "phone" := opt_str (phone c);
     "avatar" := opt_url (avatar c) ]}.
End Client.

(** [class Booking(BaseModel)] *)
Module Booking.
Record t : Type := mk {
  master_id : string;
  client_id : string;
  service_id : string;
  datetime_utc : Z;
  status : string;
  notes : option string;
}.

Definition validate `{Runtime} (kw : doc) : V t :=
  Ok mk
    <*> field kw "master_id" (required as_str)
    <*> field kw "client_id" (required as_str)
    <*> field kw "service_id" (required as_str)
    <*> field kw "datetime_utc" (required as_datetime)
    <*> field kw "status" (defaulted "pending" (as_literal booking_statuses))
    <*> field kw "notes" (optional as_str).

Definition dump (b : t) : doc :=
  {[ "master_id" := VStr (master_id b);
     "client_id" := VStr (client_id b);
     "service_id" := VStr (service_id b);
     "datetime_utc" := VDatetime (datetime_utc b);
     "status" := VStr (status b);
     "notes" := opt_str (notes b) ]}.
End Booking.

(** [class Service(BaseModel)] *)
Module Service.
Record t : Type := mk {
  title : string;
  category : string;
  subcategory : option string;
  description : option string;
  price : spec_float;
  duration_min : Z;
  master_id : option string;
}.

Definition validate `{Runtime} (kw : doc) : V t :=
  Ok mk
    <*> field kw "title" (required as_str)
    <*> field kw "category" (required as_str)
    <*> field kw "subcategory" (optional as_str)
    <*> field kw "description" (optional as_str)
    <*> field kw "price" (required (λ v, as_float v ≫= ge_float 0))
    <*> field kw "duration_min"
          (required (λ v, (as_int v ≫= ge_int 10) ≫= le_int 480))
    <*> field kw "master_id" (optional as_str).
End Service.

(** [class Review(BaseModel)] *)
Module Review.
Record t : Type := mk {
  master_id : string;
  client_id : string;
  rating : Z;
  comment : option string;
}.

Definition validate `{Runtime} (kw : doc) : V t :=
  Ok mk
    <*> field kw "master_id" (required as_str)
    <*> field kw "client_id" (required as_str)
    <*> field kw "rating" (required (λ v, (as_int v ≫= ge_int 1) ≫= le_int 5))
    <*> field kw "comment" (optional as_str).
End Review.

(** [class Portfolioitem(BaseModel)] *)
Module Portfolioitem.
Record t : Type := mk {
  master_id : string;
  title : option string;
  image_url : string;
  tags : list string;
}.

Definition validate `{Runtime} (kw : doc) : V t :=
  Ok mk
    <*> field kw "master_id" (required as_str)
    <*> field kw "title" (optional as_str)
    <*> field kw "image_url" (required as_HttpUrl)
    <*> list_field kw "tags" as_str.
End Portfolioitem.

(** ** Request and response shapes ([main.py]) *)

(** [class MasterOut(BaseModel)] *)
Module MasterOut.
Record t : Type := mk {
  id : string;
  name : string;
  role : option string;
  rating : spec_float;
  reviews_count : Z;
  city : option string;
  avatar : option string;
  verified : bool;
}.

Definition validate `{Runtime} (kw : doc) : V t :=
  Ok mk
    <*> field kw "id" (required as_str)
    <*> field kw "name" (required as_str)
    <*> field kw "role" (optional as_str)
    <*> field kw "rating" (defaulted (double 0) as_float)
    <*> field kw "reviews_count" (defaulted 0 as_int)
    <*> field kw "city" (optional as_str)
    <*> field kw "avatar" (optional as_str)
    <*> field kw "verified" (defaulted false as_bool).
End MasterOut.

(** [class BookingRequest(BaseModel)] *)
Module BookingRequest.
Record t : Type := mk {
  master_id : string;
  name : string;
  email : string;
  datetime_utc : Z;
  notes : option string;
}.

Definition validate `{Runtime} (kw : doc) : V t :=
  Ok mk
    <*> field kw "master_id" (required as_str)
    <*> field kw "name" (required as_str)
    <*> field kw "email" (required as_EmailStr)
    <*> field kw "datetime_utc" (required as_datetime)
    <*> field kw "notes" (optional as_str).
End BookingRequest.

(** [class BookingOut(BaseModel)] *)
Module BookingOut.
Record t : Type := mk {
  id : string;
  status : string;
}.

Definition validate (kw : doc) : V t :=
  Ok mk
    <*> field kw "id" (required as_str)
    <*> field kw "status" (required as_str).
End BookingOut.

(** Constructing a model inside a handler: a rejected argument raises. *)
Definition construct {A} (r : V A) : result exn A :=
  match r with
  | Ok a => Ok a
  | Err fields => Err (ValidationError fields)
  end.

Global Instance result_ret {E} : MRet (result E) := λ A a, Ok a.
Global Instance result_bind {E} : MBind (result E) := λ A B f r,
  match r with
  | Ok a => f a
  | Err e => Err e
  end.

(** ** The document store gateway ([database.py]) *)

(** A call made to the gateway. *)
Inductive call : Type :=
| Insert (kind : string) (record : doc)
| Find (kind : string) (flt : doc) (limit : Z).

(** The store as the gateway sees it.  [connected] is settled at process
    start and never changes.  [write_plan] lists, for the writes still to
    come, whether the underlying write fails; an exhausted plan means every
    later write goes through.  [oplog] is a ghost field: the calls made to
    the gateway so far, oldest first, each with the error it ended in, if
    any. *)
Record store : Type := Store {
  connected : bool;
  collections : gmap string (list doc);
  next_oid : N;
  write_plan : list bool;
  oplog : list (call * option exn);
}.

Definition collection (st : store) (kind : string) : list doc :=
  default [] (collections st !! kind).

Definition log (c : call) (failure : option exn) (st : store) : store :=
  {| connected := connected st;
     collections := collections st;
     next_oid := next_oid st;
     write_plan := write_plan st;
     oplog := oplog st ++ [(c, failure)] |}.

Definition set_write_plan (plan : list bool) (st : store) : store :=
  {| connected := connected st;
     collections := collections st;
     next_oid := next_oid st;
     write_plan := plan;
     oplog := oplog st |}.

(** Appends [d] to collection [kind] and uses up one identifier. *)
Definition append_doc (kind : string) (d : doc) (st : store) : store :=
  {| connected := connected st;
     collections := <[kind := collection st kind ++ [d]]> (collections st);
     next_oid := N.succ (next_oid st);
     write_plan := write_plan st;
     oplog := oplog st |}.

(** Computations of a handler: they run against the store and either
    return or raise. *)
Definition M (A : Type) : Type := store → result exn A * store.

Global Instance M_ret : MRet M := λ A a st, (Ok a, st).
Global Instance M_bind : MBind M := λ A B f m st,
  match m st with
  | (Ok a, st') => f a st'
  | (Err e, st') => (Err e, st')
  end.

(** A pure computation that may raise, run inside a handler. *)
Definition lift {A} (r : result exn A) : M A := λ st, (r, st).

(** Modelled from the spec: the gateway's [insert(kind, record) -> id]
    ([create_document] of [database.py], which is not among the sources).
    It takes the storage representation of an already validated record,
    appends it to the named collection under a fresh store-assigned
    identifier and returns that identifier as text.  It fails with
    [StoreUnavailable] when there is no connection and with
    [StoreWriteError] when the underlying write fails; it checks nothing
    about the record. *)
Definition create_document (kind : string) (record : doc) : M string := λ st,
  let called := log (Insert kind record) in
  if negb (connected st) then
    (Err StoreUnavailable, called (Some StoreUnavailable) st)
  else match write_plan st with
       | true :: plan =>
           (Err StoreWriteError,
            called (Some StoreWriteError) (set_write_plan plan st))
       | _ =>
           let oid := next_oid st in
           (Ok (oid_str oid),
            called None
              (append_doc kind (<["_id" := VObjectId oid]> record)
                 (set_write_plan (tail (write_plan st)) st)))
       end.

(** An equality filter: every field named in [flt] is present in [d] with
    exactly that value. *)
Definition matches (flt d : doc) : bool :=
  forallb (λ kv, match d !! kv.1 with
                 | Some w => value_eqb kv.2 w
                 | None => false
                 end) (map_to_list flt).

(** Modelled from the spec: the gateway's [find(kind, filter, limit)]
    ([get_documents] of [database.py], which is not among the sources).
    It returns, in storage order, at most [limit] of the records of the
    named collection that match the equality filter; no match gives the
    empty sequence.  It fails with [StoreUnavailable] when there is no
    connection.  The spec leaves a limit below 1 open; here it returns
    nothing, and no handler passes one. *)
Definition get_documents (kind : string) (flt : doc) (limit : Z)
    : M (list doc) := λ st,
  let called := log (Find kind flt limit) in
  if negb (connected st) then
    (Err StoreUnavailable, called (Some StoreUnavailable) st)
  else
    (Ok (take (Z.to_nat limit) (filter (λ d, matches flt d) (collection st kind))),
     called None st).

(** ** The endpoints ([main.py]) *)

Inductive http_error : Type :=
| InvalidInput (fields : list string)
| InternalError (cause : exn).

(** What a request gives back, with the store it leaves. *)
Definition endpoint (A : Type) : Type := store → result http_error A * store.

(** [try: ... except Exception as e: raise HTTPException(500, str(e))] *)
Definition try_500 {A} (body : M A) : endpoint A := λ st,
  match body st with
  | (Ok a, st') => (Ok a, st')
  | (Err e, st') => (Err (InternalError e), st')
  end.

(** [get_schema] *)
Definition get_schema : gmap string json_schema :=
  foldl (λ out item, <[item.1 := model_json_schema item.2]> out) ∅ ALL_SCHEMAS.

Section handlers.
Context `{Runtime}.

(** [_serialize_master] *)
Definition _serialize_master (d : doc) : result exn MasterOut.t :=
  role ← index0 (or_else (get d "skills") (VList [VNone]));
  rating ← float (get_or d "rating" (VInt 0));
  reviews_count ← int (get_or d "reviews_count" (VInt 0));
  construct (MasterOut.validate
    {[ "id" := VStr (str (get d "_id"));
       "name" := get_or d "name" (VStr "");
       "role" := role;
       "rating" := VFloat rating;
       "reviews_count" := VInt reviews_count;
       "city" := get d "city";
       "avatar" := get d "avatar";
       "verified" := VBool (truthy (get_or d "verified" (VBool false))) ]}).

(** The filter built from an optional text parameter: [{key: x} if x
    else {}]. *)
Definition filter_on (key : string) (x : option string) : doc :=
  match x with
  | Some s => if truthy (VStr s) then {[ key := VStr s ]} else ∅
  | None => ∅
  end.

(** [list_masters] *)
Definition list_masters (city : option string) (limit : Z)
    : endpoint (list MasterOut.t) :=
  let filter_q := filter_on "city" city in
  try_500 (docs ← get_documents "master" filter_q limit;
           lift (mapM _serialize_master docs)).

(** [create_master] *)
Definition create_master (master : Master.t) : endpoint string :=
  try_500 (create_document "master" (Master.dump master)).

(** The keyword arguments of the three [Master(...)] calls in
    [seed_demo_data]. *)
Definition seed_sample : list doc :=
  [ {[ "name" := VStr "Анна Петрова";
       "city" := VStr "Москва";
       "skills" := VList [VStr "Визажист"];
       "rating" := VFloat (decimal 49 1);
       "reviews_count" := VInt 182;
       "avatar" := VStr "https://images.unsplash.com/photo-1527980965255-d3b416303d12?q=80&w=300&auto=format&fit=crop" ]};
    {[ "name" := VStr "Ирина Смирнова";
       "city" := VStr "Санкт-Петербург";
       "skills" := VList [VStr "Мастер маникюра"];
       "rating" := VFloat (decimal 48 1);
       "reviews_count" := VInt 240;
       "avatar" := VStr "https://images.unsplash.com/photo-1544005313-94ddf0286df2?q=80&w=300&auto=format&fit=crop" ]};
    {[ "name" := VStr "Мария Иванова";
       "city" := VStr "Казань";
       "skills" := VList [VStr "Парикмахер-стилист"];
       "rating" := VFloat (decimal 50 1);
       "reviews_count" := VInt 320;
       "avatar" := VStr "https://images.unsplash.com/photo-1502685104226-ee32379fefbe?q=80&w=300&auto=format&fit=crop" ]} ].

(** [seed_demo_data].  The sample is built before the [try]: a sample
    that does not validate is an unhandled exception, which the
    framework also answers with a server error. *)
Definition seed_demo_data : endpoint (nat * list string) := λ st,
  match mapM (λ kw, construct (Master.validate kw)) seed_sample with
  | Err e => (Err (InternalError e), st)
  | Ok sample =>
      try_500 (ids ← mapM (λ m, create_document "master" (Master.dump m)) sample;
               mret (length ids, ids)) st
  end.

(** [create_booking] *)
Definition create_booking (req : BookingRequest.t) : endpoint BookingOut.t :=
  try_500 (
    client ← lift (construct (Client.validate
      {[ "name" := VStr (BookingRequest.name req);
         "email" := VStr (BookingRequest.email req) ]}));
    client_id ← create_document "client" (Client.dump client);
    booking ← lift (construct (Booking.validate
      {[ "master_id" := VStr (BookingRequest.master_id req);
         "client_id" := VStr client_id;
         "service_id" := VStr "unknown";
         "datetime_utc" := VDatetime (BookingRequest.datetime_utc req);
         "status" := VStr "pending";
         "notes" := opt_str (BookingRequest.notes req) ]}));
    booking_id ← create_document "booking" (Booking.dump booking);
    lift (construct (BookingOut.validate
      {[ "id" := VStr booking_id; "status" := VStr "pending" ]}))).

(** [d["id"] = str(d.pop("_id", ""))] *)
Definition sanitize_id (d : doc) : doc :=
  <["id" := VStr (str (get_or d "_id" (VStr "")))]> (delete "_id" d).

(** [list_bookings].  The records are the caller's own copies, so
    renaming their identifier field leaves the store alone. *)
Definition list_bookings (master_id : option string) (limit : Z)
    : endpoint (list doc) :=
  try_500 (
    let q := filter_on "master_id" master_id in
    docs ← get_documents "booking" q limit;
    mret (sanitize_id <$> docs)).

(** *** Dispatch: what the framework does around the handlers *)

Inductive request : Type :=
| GET_schema
| GET_masters (query : doc)
| POST_masters (body : doc)
| POST_seed
| POST_bookings (body : doc)
| GET_bookings (query : doc).

(** What a handler hands back to the framework. *)
Inductive response : Type :=
| SchemaR (kinds : gmap string json_schema)
| MastersR (masters : list MasterOut.t)
| CreatedR (id : string)
| SeedR (inserted : nat) (ids : list string)
| BookingR (booking : BookingOut.t)
| BookingsR (bookings : list doc).

(** A request whose query parameters do not validate is answered before
    the handler runs.  The parameters are texts taken from the URL. *)
Definition validated {A B} (v : V A) (h : A → endpoint B) : endpoint B := λ st,
  match v with
  | Ok a => h a st
  | Err fields => (Err (InvalidInput fields), st)
  end.

(** Whether a value can be written as JSON that admits no NaN and no
    infinity, which is how the framework writes its answers. *)
Fixpoint finite (v : value) : bool :=
  match v with
  | VFloat x => is_finite x
  | VList l => forallb finite l
  | _ => true
  end.

Definition finite_doc (d : doc) : bool :=
  bool_decide (map_Forall (λ _ v, finite v = true) d).

(** Whether the report of a rejected body can be written.  With the name
    of each field the report quotes the input of the error: the value of
    the field, or the whole body when the field is missing. *)
Definition renders (body : doc) (fields : list string) : bool :=
  forallb (λ name, match body !! name with
                   | Some v => finite v
                   | None => finite_doc body
                   end) fields.

(** A request whose body does not validate is answered before the
    handler runs: with the report, or, when the report cannot be written,
    with the server error that the failure to write it ends in. *)
Definition validated_body {A B} (body : doc) (v : V A) (h : A → endpoint B)
    : endpoint B := λ st,
  match v with
  | Ok a => h a st
  | Err fields =>
      if renders body fields then (Err (InvalidInput fields), st)
      else (Err (InternalError ValueError), st)
  end.

Definition respond {A} (wrap : A → response) (e : endpoint A)
    : endpoint response := λ st,
  match e st with
  | (Ok a, st') => (Ok (wrap a), st')
  | (Err err, st') => (Err err, st')
  end.

(** [limit: int = Query(default=d, ge=1, le=hi)] *)
Definition limit_param (d hi : Z) : option value → option Z :=
  defaulted d (λ v, (as_int v ≫= ge_int 1) ≫= le_int hi).

(** The parameters of [list_masters]. *)
Definition masters_query (q : doc) : V (option string * Z) :=
  Ok pair <*> field q "city" (optional as_str)
          <*> field q "limit" (limit_param 12 100).

(** The parameters of [list_bookings]. *)
Definition bookings_query (q : doc) : V (option string * Z) :=
  Ok pair <*> field q "master_id" (optional as_str)
          <*> field q "limit" (limit_param 50 200).

Definition serve (r : request) : endpoint response :=
  match r with
  | GET_schema => λ st, (Ok (SchemaR get_schema), st)
  | GET_masters q =>
      validated (masters_query q)
        (λ p, respond MastersR (list_masters p.1 p.2))
  | POST_masters body =>
      validated_body body (Master.validate body)
        (λ m, respond CreatedR (create_master m))
  | POST_seed => respond (λ r, SeedR r.1 r.2) seed_demo_data
  | POST_bookings body =>
      validated_body body (BookingRequest.validate body)
        (λ req, respond BookingR (create_booking req))
  | GET_bookings q =>
      validated (bookings_query q)
        (λ p, respond BookingsR (list_bookings p.1 p.2))
  end.

(** The store after a sequence of requests. *)
Definition run (rs : list request) (st : store) : store :=
  foldl (λ st r, (serve r st).2) st rs.
End handlers.

(** A store at process start: nothing stored, nothing called yet. *)
Definition fresh (conn : bool) (plan : list bool) : store :=
  {| connected := conn;
     collections := ∅;
     next_oid := 0;
     write_plan := plan;
     oplog := [] |}.

(** ** A runtime to run the handlers on examples

    Addresses need an [@], URLs an [http] scheme, and both are taken as
    they are; no number or timestamp is read out of text. *)
Definition sample_EmailStr (s : string) : option string :=
  if bool_decide (is_Some (String.index 0 "@" s)) then Some s else None.

Lemma sample_EmailStr_normal (s e : string) :
  sample_EmailStr s = Some e → sample_EmailStr e = Some e.
Proof.
  unfold sample_EmailStr. destruct (bool_decide _) eqn:Hs; [|done].
  intros [= <-]. by rewrite Hs.
Qed.

Definition sample_runtime : Runtime :=
  {| EmailStr := sample_EmailStr;
     EmailStr_normal := sample_EmailStr_normal;
     HttpUrl := λ s,
       if String.prefix "http://" s || String.prefix "https://" s
       then Some s else None;
     float_of_str := λ _, None;
     int_of_str := λ _, None;
     datetime_of := λ _, None;
     str_other := λ _, "" |}.

(** ** Vocabulary of the properties *)

(** The offending fields of a validation outcome. *)
Definition errors_of {A} (r : V A) : list string :=
  match r with
  | Ok _ => []
  | Err fields => fields
  end.

(** [lo <= x <= hi] in the order of the doubles, which NaN is not part
    of. *)
Definition between (lo hi : Z) (x : spec_float) : Prop :=
  SFleb (double lo) x = true ∧ SFleb x (double hi) = true.

(** What the constraints of [Master] let through: a rating that is
    within [0,5] or is NaN, and a count of reviews that is not
    negative. *)
Definition master_in_bounds (m : Master.t) : Prop :=
  (is_nan (Master.rating m) = true ∨ between 0 5 (Master.rating m))
  ∧ 0 ≤ Master.reviews_count m.

(** A document of the master collection that this system wrote: the dump
    of a validated [Master] under a store identifier. *)
Definition stored_master (d : doc) : Prop :=
  ∃ (m : Master.t) (oid : N),
    master_in_bounds m ∧ d = <["_id" := VObjectId oid]> (Master.dump m).

Definition masters_ok (st : store) : Prop :=
  Forall stored_master (collection st "master").

(** A document of the master collection that this system wrote for a
    master without avatar. *)
Definition stored_without_avatar (d : doc) : Prop :=
  ∃ (m : Master.t) (oid : N),
    Master.avatar m = None ∧ d = <["_id" := VObjectId oid]> (Master.dump m).

(** The client and the booking that [create_booking] builds for a
    request. *)
Definition client_of (req : BookingRequest.t) : Client.t :=
  {| Client.name := BookingRequest.name req;
     Client.email := BookingRequest.email req;
     Client.phone := None;
     Client.avatar := None |}.

Definition booking_of (req : BookingRequest.t) (client_id : string) : Booking.t :=
  {| Booking.master_id := BookingRequest.master_id req;
     Booking.client_id := client_id;
     Booking.service_id := "unknown";
     Booking.datetime_utc := BookingRequest.datetime_utc req;
     Booking.status := "pending";
     Booking.notes := BookingRequest.notes req |}.

(** The gateway calls that serving [r] from [st] adds to the log. *)
Definition new_calls `{Runtime} (r : request) (st : store)
    : list (call * option exn) :=
  drop (length (oplog st)) (oplog (serve r st).2).

(** A computation whose failed gateway calls are what it raises. *)
Definition surfaces {A} (m : M A) : Prop :=
  ∀ st, ∃ new,
    oplog (m st).2 = oplog st ++ new
    ∧ ∀ c e, (c, Some e) ∈ new → (m st).1 = Err e.

(** An endpoint whose failed gateway calls come back as server errors. *)
Definition surfaces_500 {A} (h : endpoint A) : Prop :=
  ∀ st, ∃ new,
    oplog (h st).2 = oplog st ++ new
    ∧ ∀ c e, (c, Some e) ∈ new → (h st).1 = Err (InternalError e).

(** A computation that keeps the store within [I]. *)
Definition keeps {A} (I : store → Prop) (h : store → A * store) : Prop :=
  ∀ st, I st → I (h st).2.

(** "Clamped", read literally: brought into the range. *)
Definition clamp (lo hi x : Z) : Z := Z.max lo (Z.min hi x).

(** What [list_masters] reports for a master this system stored, when
    it reports one: a master with an avatar has no summary. *)
Definition summary_of (m : Master.t) (oid : N) : MasterOut.t :=
  {| MasterOut.id := oid_str oid;
     MasterOut.name := Master.name m;
     MasterOut.role := head (Master.skills m);
     MasterOut.rating := Master.rating m;
     MasterOut.reviews_count := Master.reviews_count m;
     MasterOut.city := Master.city m;
     MasterOut.avatar := Master.avatar m;
     MasterOut.verified := false |}.

(** A computation all of whose gateway calls satisfy [P]. *)
Definition emits {A} (P : call → Prop) (h : store → A * store) : Prop :=
  ∀ st, ∃ new, oplog (h st).2 = oplog st ++ new ∧ Forall (λ c, P c.1) new.

(** A call whose limit, if it has one, is within the range of its
    endpoint. *)
Definition limit_in_range (c : call) : Prop :=
  match c with
  | Insert _ _ => True
  | Find kind _ limit =>
      (kind = "master" ∧ 1 ≤ limit ≤ 100) ∨ (kind = "booking" ∧ 1 ≤ limit ≤ 200)
  end.

(** The shape constraints a request can violate, each with the field it
    is reported under: a required field that is missing, a malformed
    address, a value out of its range. *)
Inductive violates `{Runtime} : request → string → Prop :=
| master_name_missing (body : doc) :
    body !! "name" = None → violates (POST_masters body) "name"
| master_email_malformed (body : doc) (e : string) :
    body !! "email" = Some (VStr e) → EmailStr e = None →
    violates (POST_masters body) "email"
| master_rating_out_of_range (body : doc) (v : value) (x : spec_float) :
    body !! "rating" = Some v → as_float v = Some x → ¬ between 0 5 x →
    violates (POST_masters body) "rating"
| master_reviews_count_negative (body : doc) (v : value) (z : Z) :
    body !! "reviews_count" = Some v → as_int v = Some z → z < 0 →
    violates (POST_masters body) "reviews_count"
| booking_field_missing (body : doc) (name : string) :
    name ∈ ["master_id"; "name"; "email"; "datetime_utc"] →
    body !! name = None → violates (POST_bookings body) name
| booking_email_malformed (body : doc) (e : string) :
    body !! "email" = Some (VStr e) → EmailStr e = None →
    violates (POST_bookings body) "email"
| masters_limit_out_of_range (q : doc) (v : value) (z : Z) :
    q !! "limit" = Some v → as_int v = Some z → ¬ (1 ≤ z ≤ 100) →
    violates (GET_masters q) "limit"
| bookings_limit_out_of_range (q : doc) (v : value) (z : Z) :
    q !! "limit" = Some v → as_int v = Some z → ¬ (1 ≤ z ≤ 200) →
    violates (GET_bookings q) "limit".

(** The report that validating the parameters of a request gives; it is
    empty when they are accepted. *)
Definition report `{Runtime} (r : request) : list string :=
  match r with
  | GET_schema | POST_seed => []
  | GET_masters q => errors_of (masters_query q)
  | POST_masters body => errors_of (Master.validate body)
  | POST_bookings body => errors_of (BookingRequest.validate body)
  | GET_bookings q => errors_of (bookings_query q)
  end.

(** Whether the report of a request can be written. *)
Definition writable `{Runtime} (r : request) : bool :=
  match r with
  | POST_masters body | POST_bookings body => renders body (report r)
  | _ => true
  end.

(** What a request with a report is answered. *)
Definition rejection `{Runtime} (r : request) : http_error :=
  if writable r then InvalidInput (report r) else InternalError ValueError.

(** A request to create a master whose rating is NaN. *)
Definition nan_rating `{Runtime} (r : request) : Prop :=
  ∃ body v, r = POST_masters body
    ∧ body !! "rating" = Some v ∧ as_float v = Some S754_nan.

(** Two requests that create masters without avatar, the second one
    without skills either. *)
Definition two_masters : list request :=
  [ POST_masters {[ "name" := VStr "Мария Иванова";
                    "city" := VStr "Казань";
                    "skills" := VList [VStr "Парикмахер-стилист"];
                    "rating" := VFloat (decimal 45 1) ]};
    POST_masters {[ "name" := VStr "Анна Петрова";
                    "city" := VStr "Москва" ]} ].

(** The bodies [{"name": "Anna", "rating": NaN}] and
    [{"name": "Anna", "rating": 1e999}], as the JSON parser reads them,
    and the master that the first one validates into. *)
Definition nan_body : doc :=
  {[ "name" := VStr "Anna"; "rating" := VFloat S754_nan ]}.
Definition inf_body : doc :=
  {[ "name" := VStr "Anna"; "rating" := VFloat (S754_infinity false) ]}.
Definition nan_master : Master.t :=
  {| Master.name := "Anna"; Master.email := None; Master.phone := None;
     Master.city := None; Master.bio := None; Master.avatar := None;
     Master.skills := []; Master.rating := S754_nan;
     Master.reviews_count := 0 |}.

(** The fields that constructing model [m] from [kw] reports. *)
Definition model_errors `{Runtime} (m : model) (kw : doc) : list string :=
  match m with
  | MasterModel => errors_of (Master.validate kw)
  | ClientModel => errors_of (Client.validate kw)
  | ServiceModel => errors_of (Service.validate kw)
  | BookingModel => errors_of (Booking.validate kw)
  | ReviewModel => errors_of (Review.validate kw)
  | PortfolioitemModel => errors_of (Portfolioitem.validate kw)
  end.



(** The collections that serving [r] may write to. *)
Definition touches (r : request) (kind : string) : Prop :=
  match r with
  | POST_masters _ | POST_seed => kind = "master"
  | POST_bookings _ => kind = "client" ∨ kind = "booking"
  | GET_schema | GET_masters _ | GET_bookings _ => False
  end.

(** A booking document as this system stores it: pending, of unknown
    service, and referring to a client that is among [clients]. *)
Definition booking_refers_to_client (clients : list doc) (b : doc) : Prop :=
  b !! "status" = Some (VStr "pending")
  ∧ b !! "service_id" = Some (VStr "unknown")
  ∧ ∃ n c, c ∈ clients
      ∧ c !! "_id" = Some (VObjectId n)
      ∧ b !! "client_id" = Some (VStr (oid_str n)).

Definition bookings_ok (st : store) : Prop :=
  Forall (booking_refers_to_client (collection st "client"))
    (collection st "booking").

(** The gateway calls that serving [r] may make. *)
Definition allowed_call (r : request) (c : call) : Prop :=
  match r, c with
  | GET_masters _, Find kind _ _ => kind = "master"
  | GET_bookings _, Find kind _ _ => kind = "booking"
  | POST_masters _, Insert kind _ => kind = "master"
  | POST_seed, Insert kind _ => kind = "master"
  | POST_bookings _, Insert kind _ => kind = "client" ∨ kind = "booking"
  | _, _ => False
  end.

(** [records] as stored one after the other from identifier [n] on. *)
Fixpoint with_ids (n : N) (records : list doc) : list doc :=
  match records with
  | [] => []
  | record :: records =>
      <["_id" := VObjectId n]> record :: with_ids (N.succ n) records
  end.

(** The texts of the [k] identifiers from [n] on. *)
Fixpoint ids_from (n : N) (k : nat) : list string :=
  match k with
  | O => []
  | S k => oid_str n :: ids_from (N.succ n) k
  end.

(** * Properties *)

(** ** Validation *)

Lemma vap_Ok_inv {A B} (f : V (A → B)) (x : V A) (b : B) :
  f <*> x = Ok b → ∃ g a, f = Ok g ∧ x = Ok a ∧ b = g a.
Proof.
  destruct f as [g|e1], x as [a|e2]; simpl; intros Hb; try discriminate.
  exists g, a. by inversion Hb.
Qed.

Lemma vap_errors {A B} (f : V (A → B)) (x : V A) :
  errors_of (f <*> x) = errors_of f ++ errors_of x.
Proof. destruct f, x; simpl; by rewrite ?app_nil_r. Qed.

Lemma errors_nonempty {A} (r : V A) (name : string) :
  name ∈ errors_of r → ∃ fields, r = Err fields ∧ name ∈ fields.
Proof.
  destruct r as [a|fields]; simpl; intros Hin.
  - by apply elem_of_nil in Hin.
  - by exists fields.
Qed.

Lemma field_Ok_inv {A} (kw : doc) (name : string)
    (conv : option value → option A) (a : A) :
  field kw name conv = Ok a → conv (kw !! name) = Some a.
Proof. unfold field. destruct (conv (kw !! name)); by inversion 1. Qed.

Lemma field_errors {A} (kw : doc) (name : string)
    (conv : option value → option A) :
  conv (kw !! name) = None → errors_of (field kw name conv) = [name].
Proof. unfold field. by intros ->. Qed.

Lemma check_Some {A} (p : A → bool) (a b : A) :
  check p a = Some b → b = a ∧ p a = true.
Proof. unfold check. destruct (p a); by inversion 1. Qed.

Lemma check_false {A} (p : A → bool) (a : A) : p a = false → check p a = None.
Proof. unfold check. by intros ->. Qed.

(** *** List fields *)

Lemma list_field_absent {A} (kw : doc) (name : string) (conv : value → option A) :
  kw !! name = None → list_field kw name conv = Ok [].
Proof. unfold list_field. by intros ->. Qed.

(** The items of a list are all taken, or each refused item is reported
    under the field's name. *)
Lemma list_items_spec {A} (name : string) (conv : value → option A)
    (l : list value) :
  match list_items name conv l with
  | Ok xs => Forall2 (λ v x, conv v = Some x) l xs
  | Err fields => ∃ k, fields = replicate (S k) name
  end.
Proof.
  induction l as [|v l IH]; [constructor|].
  cbn [list_items foldr]. fold (list_items name conv l).
  destruct (list_items name conv l) as [xs|fields], (conv v) as [a|] eqn:Hv;
    simpl.
  - by constructor.
  - by exists 0%nat.
  - done.
  - destruct IH as [k ->]. by exists (S k).
Qed.

Lemma list_field_Err {A} (kw : doc) (name : string) (conv : value → option A)
    (fields : list string) :
  list_field kw name conv = Err fields →
  is_Some (kw !! name) ∧ ∃ k, fields = replicate (S k) name.
Proof.
  unfold list_field. destruct (kw !! name) as [v|]; [|done].
  intros Hl. split; [done|].
  destruct v; try (injection Hl as <-; by exists 0%nat).
  pose proof (list_items_spec name conv l) as Hs. by rewrite Hl in Hs.
Qed.


Lemma list_field_errors_inv {A} (kw : doc) (name x : string)
    (conv : value → option A) :
  x ∈ errors_of (list_field kw name conv) → x = name ∧ is_Some (kw !! name).
Proof.
  destruct (list_field kw name conv) as [xs|fields] eqn:Hl; simpl.
  - by intros Hin%elem_of_nil.
  - apply list_field_Err in Hl as [Hsome [k ->]].
    by intros [-> _]%elem_of_replicate.
Qed.

Lemma list_field_rejects {A} (kw : doc) (name : string) (conv : value → option A)
    (fields : list string) :
  list_field kw name conv = Err fields → name ∈ errors_of (list_field kw name conv).
Proof.
  intros Hl. rewrite Hl. apply list_field_Err in Hl as [_ [k ->]].
  apply list_elem_of_here.
Qed.

(** Splits a successful validation into its fields. *)
Ltac vap_inv H :=
  repeat match type of H with
  | _ <*> _ = Ok _ =>
      let g := fresh "g" in
      let Hf := fresh "Hfield" in
      apply vap_Ok_inv in H as (g & ? & H & Hf & ->)
  | Ok _ = Ok _ => inversion H; subst; clear H
  end.

(** *** The order of the doubles *)

Lemma SFcompare_antisym (x y : spec_float) :
  SFcompare y x = CompOpp <$> SFcompare x y.
Proof.
  destruct x as [sx|sx| |sx mx ex], y as [sy|sy| |sy my ey]; simpl;
    try done; try (by destruct sx); try (by destruct sy);
    try (by destruct sx, sy).
  destruct sx, sy; simpl; try done;
    rewrite (Z.compare_antisym ey ex); destruct (ey ?= ex); simpl; try done;
    pose proof (Pos.compare_cont_antisym mx my Eq) as Hm; simpl in Hm;
    by rewrite Hm.
Qed.

(** Two doubles compare, unless one of them is NaN. *)
Lemma SFcompare_Some (x y : spec_float) :
  is_nan x = false → is_nan y = false → ∃ c, SFcompare x y = Some c.
Proof. destruct x, y; simpl; try done; by eauto. Qed.

(** A double that is not below a bound is above it or equal to it,
    unless one of them is NaN. *)
Lemma not_below_is_above (x b : spec_float) :
  is_nan x = false → is_nan b = false → SFltb x b = false → SFleb b x = true.
Proof.
  intros Hx Hb. unfold SFltb, SFleb. rewrite (SFcompare_antisym x b).
  destruct (SFcompare_Some x b Hx Hb) as [c ->]. by destruct c.
Qed.

Lemma not_above_is_below (x b : spec_float) :
  is_nan x = false → is_nan b = false → SFleb b x = false → SFltb x b = true.
Proof.
  intros Hx Hb. unfold SFltb, SFleb. rewrite (SFcompare_antisym x b).
  destruct (SFcompare_Some x b Hx Hb) as [c ->]. by destruct c.
Qed.

(** Within the bounds is what passes [ge=0] and [le=5] and is not NaN. *)
Lemma passes_between (x : spec_float) :
  is_nan x = false →
  SFltb x (double 0) = false → SFltb (double 5) x = false → between 0 5 x.
Proof.
  intros Hx Hlo Hhi. split; by apply not_below_is_above.
Qed.

Lemma outside_fails (x : spec_float) :
  is_nan x = false → ¬ between 0 5 x →
  SFltb x (double 0) = true ∨ SFltb (double 5) x = true.
Proof.
  intros Hx Hout.
  destruct (SFltb x (double 0)) eqn:Hlo; [by left|].
  destruct (SFltb (double 5) x) eqn:Hhi; [by right|].
  by destruct Hout; apply passes_between.
Qed.

Lemma nan_is_not_between (lo hi : Z) (x : spec_float) :
  is_nan x = true → ¬ between lo hi x.
Proof. destruct x; try done. intros _ [_ Hhi]. by destruct (double hi). Qed.

Section validation_facts.
Context `{Runtime}.

Lemma Master_validate_fields (kw : doc) (m : Master.t) :
  Master.validate kw = Ok m →
  optional as_EmailStr (kw !! "email") = Some (Master.email m)
  ∧ optional as_HttpUrl (kw !! "avatar") = Some (Master.avatar m)
  ∧ list_field kw "skills" as_str = Ok (Master.skills m)
  ∧ defaulted (double 0) (λ v, (as_float v ≫= ge_float 0) ≫= le_float 5)
      (kw !! "rating") = Some (Master.rating m)
  ∧ defaulted 0 (λ v, as_int v ≫= ge_int 0) (kw !! "reviews_count")
      = Some (Master.reviews_count m).
Proof.
  unfold Master.validate. intros Hv. vap_inv Hv. simpl.
  repeat match goal with
  | Hf : field _ _ _ = Ok _ |- _ => apply field_Ok_inv in Hf
  end.
  by repeat split.
Qed.

Lemma ge_float_Some (lo : Z) (x x' : spec_float) :
  ge_float lo x = Some x' → x' = x ∧ SFltb x (double lo) = false.
Proof.
  unfold ge_float. intros [-> Hc]%check_Some. by apply negb_true_iff in Hc.
Qed.

Lemma le_float_Some (hi : Z) (x x' : spec_float) :
  le_float hi x = Some x' → x' = x ∧ SFltb (double hi) x = false.
Proof.
  unfold le_float. intros [-> Hc]%check_Some. by apply negb_true_iff in Hc.
Qed.

Lemma rating_conv_Some (v : value) (x : spec_float) :
  (as_float v ≫= ge_float 0) ≫= le_float 5 = Some x →
  as_float v = Some x
  ∧ SFltb x (double 0) = false ∧ SFltb (double 5) x = false.
Proof.
  destruct (as_float v) as [x0|]; simpl; [|done].
  destruct (ge_float 0 x0) as [x1|] eqn:H1; simpl; [|done].
  apply ge_float_Some in H1 as [-> H1]. by intros [-> H2]%le_float_Some.
Qed.

Lemma rating_conv_None (v : value) (x : spec_float) :
  as_float v = Some x →
  SFltb x (double 0) = true ∨ SFltb (double 5) x = true →
  (as_float v ≫= ge_float 0) ≫= le_float 5 = None.
Proof.
  intros -> Hout. cbn [mbind option_bind]. unfold ge_float, le_float, check.
  destruct (SFltb x (double 0)) eqn:H1; cbn [negb mbind option_bind]; [done|].
  destruct (SFltb (double 5) x) eqn:H2; cbn [negb]; [done|].
  by destruct Hout.
Qed.

Lemma reviews_conv_Some (v : value) (z : Z) :
  as_int v ≫= ge_int 0 = Some z → as_int v = Some z ∧ 0 ≤ z.
Proof.
  destruct (as_int v) as [z0|]; simpl; [|done].
  unfold ge_int. intros Hc. apply check_Some in Hc as [-> Hc].
  split; [done|]. by apply bool_decide_eq_true in Hc.
Qed.

Lemma reviews_conv_None (v : value) (z : Z) :
  as_int v = Some z → z < 0 → as_int v ≫= ge_int 0 = None.
Proof.
  intros -> Hneg. simpl. unfold ge_int. apply check_false.
  apply bool_decide_eq_false. lia.
Qed.

Lemma Master_validate_bounds (kw : doc) (m : Master.t) :
  Master.validate kw = Ok m → master_in_bounds m.
Proof.
  intros Hv. apply Master_validate_fields in Hv as (_ & _ & _ & Hr & Hc).
  split.
  - destruct (kw !! "rating") as [v|]; simpl in Hr.
    + apply rating_conv_Some in Hr as (_ & Hlo & Hhi).
      destruct (is_nan (Master.rating m)) eqn:Hnan; [by left|right].
      by apply passes_between.
    + inversion Hr. right. by split.
  - destruct (kw !! "reviews_count") as [v|]; simpl in Hc.
    + by apply reviews_conv_Some in Hc as [_ ?].
    + by inversion Hc.
Qed.

(** A field of a [Master] body that does not convert is among the
    reported fields. *)
Lemma Master_validate_rejects (kw : doc) (name : string) :
  (name = "name" ∧ required as_str (kw !! "name") = None)
  ∨ (name = "email" ∧ optional as_EmailStr (kw !! "email") = None)
  ∨ (name = "phone" ∧ optional as_str (kw !! "phone") = None)
  ∨ (name = "city" ∧ optional as_str (kw !! "city") = None)
  ∨ (name = "bio" ∧ optional as_str (kw !! "bio") = None)
  ∨ (name = "avatar" ∧ optional as_HttpUrl (kw !! "avatar") = None)
  ∨ (name = "skills" ∧ ∃ fields, list_field kw "skills" as_str = Err fields)
  ∨ (name = "rating"
     ∧ defaulted (double 0) (λ v, (as_float v ≫= ge_float 0) ≫= le_float 5)
         (kw !! "rating") = None)
  ∨ (name = "reviews_count"
     ∧ defaulted 0 (λ v, as_int v ≫= ge_int 0) (kw !! "reviews_count") = None) →
  ∃ fields, Master.validate kw = Err fields ∧ name ∈ fields.
Proof.
  intros Hbad. apply errors_nonempty.
  unfold Master.validate. rewrite !vap_errors, !elem_of_app.
  destruct Hbad as [[-> Hb]|[[-> Hb]|[[-> Hb]|[[-> Hb]|[[-> Hb]|[[-> Hb]|
    [[-> [fields Hb]]|[[-> Hb]|[-> Hb]]]]]]]]];
    first [ rewrite (field_errors _ _ _ Hb); rewrite list_elem_of_singleton
          | apply list_field_rejects in Hb ];
    tauto.
Qed.
End validation_facts.

(** ** The gateway and the handler monad *)

Lemma bind_run {A B} (m : M A) (k : A → M B) (st : store) :
  (m ≫= k) st = match m st with
                | (Ok a, st') => k a st'
                | (Err e, st') => (Err e, st')
                end.
Proof. reflexivity. Qed.

Lemma collection_log (c : call) (o : option exn) (st : store) (k : string) :
  collection (log c o st) k = collection st k.
Proof. reflexivity. Qed.

Lemma collection_set_write_plan (plan : list bool) (st : store) (k : string) :
  collection (set_write_plan plan st) k = collection st k.
Proof. reflexivity. Qed.

Lemma collection_append_eq (kind : string) (d : doc) (st : store) :
  collection (append_doc kind d st) kind = collection st kind ++ [d].
Proof. unfold collection at 1. simpl. by rewrite lookup_insert_eq. Qed.

Lemma collection_append_ne (kind k : string) (d : doc) (st : store) :
  kind ≠ k → collection (append_doc kind d st) k = collection st k.
Proof. intros Hne. unfold collection. simpl. by rewrite lookup_insert_ne. Qed.

(** A successful insert: the identifier and the stored document. *)
Lemma create_document_Ok (kind : string) (record : doc) (st : store) :
  connected st = true → true ∉ take 1 (write_plan st) →
  let r := create_document kind record st in
  r.1 = Ok (oid_str (next_oid st))
  ∧ collection r.2 kind
    = collection st kind ++ [<["_id" := VObjectId (next_oid st)]> record]
  ∧ (∀ k, k ≠ kind → collection r.2 k = collection st k)
  ∧ oplog r.2 = oplog st ++ [(Insert kind record, None)]
  ∧ connected r.2 = true
  ∧ write_plan r.2 = tail (write_plan st)
  ∧ next_oid r.2 = N.succ (next_oid st).
Proof.
  intros Hc Hplan. unfold create_document. rewrite Hc. cbn [negb].
  assert (Hgo : ∀ plan, write_plan st ≠ true :: plan).
  { intros plan Hp. apply Hplan. rewrite Hp. cbn. apply list_elem_of_here. }
  destruct (write_plan st) as [|[] plan] eqn:Hp; [|by destruct (Hgo plan)|];
    cbn zeta; cbn [fst snd]; rewrite ?Hp;
    (split; [done|]); (split; [by rewrite collection_log, collection_append_eq|]);
    (split; [by intros k Hk; rewrite collection_log, collection_append_ne|]);
    by repeat split.
Qed.

Lemma create_document_writes_failed (kind : string) (record : doc) (st : store)
    (plan : list bool) :
  connected st = true → write_plan st = true :: plan →
  create_document kind record st
  = (Err StoreWriteError,
     log (Insert kind record) (Some StoreWriteError) (set_write_plan plan st)).
Proof. intros Hc Hp. unfold create_document. by rewrite Hc, Hp. Qed.

(** *** Failed calls are what a computation raises *)

Lemma surfaces_create_document (kind : string) (record : doc) :
  surfaces (create_document kind record).
Proof.
  intros st. unfold create_document.
  destruct (connected st); simpl; [destruct (write_plan st) as [|[] plan]|];
    simpl; eexists; (split; [reflexivity|]);
    intros c e Hin; apply list_elem_of_singleton in Hin; by inversion Hin.
Qed.

Lemma surfaces_get_documents (kind : string) (flt : doc) (limit : Z) :
  surfaces (get_documents kind flt limit).
Proof.
  intros st. unfold get_documents.
  destruct (connected st); simpl; eexists; (split; [reflexivity|]);
    intros c e Hin; apply list_elem_of_singleton in Hin; by inversion Hin.
Qed.

Lemma surfaces_lift {A} (r : result exn A) : surfaces (lift r).
Proof.
  intros st. exists []. simpl. rewrite app_nil_r. split; [done|].
  intros c e Hin. by apply elem_of_nil in Hin.
Qed.

Lemma surfaces_ret {A} (a : A) : surfaces (mret a).
Proof.
  intros st. exists []. simpl. rewrite app_nil_r. split; [done|].
  intros c e Hin. by apply elem_of_nil in Hin.
Qed.

Lemma surfaces_bind {A B} (m : M A) (k : A → M B) :
  surfaces m → (∀ a, surfaces (k a)) → surfaces (m ≫= k).
Proof.
  intros Hm Hk st. rewrite bind_run.
  destruct (Hm st) as (new1 & Hlog1 & Hfail1).
  destruct (m st) as [[a|e] st1] eqn:Hrun; simpl in *.
  - destruct (Hk a st1) as (new2 & Hlog2 & Hfail2).
    exists (new1 ++ new2). split.
    + by rewrite Hlog2, Hlog1, app_assoc.
    + intros c e Hin. apply elem_of_app in Hin as [Hin|Hin].
      * by specialize (Hfail1 _ _ Hin).
      * by apply (Hfail2 c).
  - exists new1. split; [done|]. intros c e' Hin.
    specialize (Hfail1 _ _ Hin). by inversion Hfail1.
Qed.

Lemma surfaces_mapM {A B} (f : A → M B) (l : list A) :
  (∀ a, surfaces (f a)) → surfaces (mapM f l).
Proof.
  intros Hf. induction l as [|x l IH].
  - apply surfaces_ret.
  - apply (surfaces_bind (f x)); [apply Hf|]. intros y.
    apply (surfaces_bind (mapM f l)); [apply IH|]. intros ys.
    apply surfaces_ret.
Qed.

Lemma surfaces_try_500 {A} (m : M A) : surfaces m → surfaces_500 (try_500 m).
Proof.
  intros Hm st. destruct (Hm st) as (new & Hlog & Hfail).
  exists new. unfold try_500.
  destruct (m st) as [[a|e] st1]; simpl in *; split; try done.
  - intros c e Hin. by specialize (Hfail _ _ Hin).
  - intros c e' Hin. specialize (Hfail _ _ Hin). by inversion Hfail.
Qed.

(** *** The master collection stays well-formed *)

Lemma create_document_collection (kind : string) (record : doc) (st : store)
    (k : string) :
  collection (create_document kind record st).2 k = collection st k
  ∨ (k = kind
     ∧ collection (create_document kind record st).2 k
       = collection st k ++ [<["_id" := VObjectId (next_oid st)]> record]).
Proof.
  unfold create_document.
  destruct (connected st); simpl; [|by left].
  destruct (decide (kind = k)) as [->|Hne].
  - destruct (write_plan st) as [|[] plan]; simpl; rewrite collection_log;
      try (by left); right; by rewrite collection_append_eq.
  - left. destruct (write_plan st) as [|[] plan]; simpl; rewrite collection_log;
      try done; by rewrite collection_append_ne.
Qed.

Lemma keeps_create_master (m : Master.t) :
  master_in_bounds m → keeps masters_ok (create_document "master" (Master.dump m)).
Proof.
  intros Hm st Hst. unfold masters_ok in *.
  destruct (create_document_collection "master" (Master.dump m) st "master")
    as [->|[_ ->]]; [done|].
  apply Forall_app. split; [done|]. apply Forall_singleton.
  by exists m, (next_oid st).
Qed.

Lemma keeps_create_other (kind : string) (record : doc) :
  kind ≠ "master" → keeps masters_ok (create_document kind record).
Proof.
  intros Hne st Hst. unfold masters_ok in *.
  by destruct (create_document_collection kind record st "master")
    as [->|[? _]].
Qed.

Lemma keeps_get_documents (kind : string) (flt : doc) (limit : Z) :
  keeps masters_ok (get_documents kind flt limit).
Proof. intros st Hst. unfold get_documents. by destruct (connected st). Qed.

Lemma keeps_lift {A} (I : store → Prop) (r : result exn A) : keeps I (lift r).
Proof. by intros st Hst. Qed.

Lemma keeps_ret {A} (I : store → Prop) (a : A) : keeps I (mret a : M A).
Proof. by intros st Hst. Qed.

Lemma keeps_bind {A B} (I : store → Prop) (m : M A) (k : A → M B) :
  keeps I m → (∀ a, keeps I (k a)) → keeps I (m ≫= k).
Proof.
  intros Hm Hk st Hst. rewrite bind_run. specialize (Hm st Hst).
  destruct (m st) as [[a|e] st1]; simpl in *; [by apply Hk|done].
Qed.

Lemma keeps_mapM {A B} (I : store → Prop) (f : A → M B) (l : list A) :
  Forall (λ a, keeps I (f a)) l → keeps I (mapM f l).
Proof.
  induction 1 as [|x l Hx Hl IH].
  - apply keeps_ret.
  - apply (keeps_bind I (f x)); [done|]. intros y.
    apply (keeps_bind I (mapM f l)); [done|]. intros ys. apply keeps_ret.
Qed.

Lemma keeps_try_500 {A} (I : store → Prop) (m : M A) :
  keeps I m → keeps I (try_500 m).
Proof.
  intros Hm st Hst. specialize (Hm st Hst). unfold try_500.
  by destruct (m st) as [[a|e] st1].
Qed.

(** ** The handlers *)

(** [mapM] in the exception monad stops at the first failure. *)
Lemma mapM_result_Forall2 {E A B} (f : A → result E B) (l : list A) (k : list B) :
  mapM f l = Ok k → Forall2 (λ x y, f x = Ok y) l k.
Proof.
  revert k. induction l as [|x l IH]; intros k; simpl.
  - inversion 1. constructor.
  - unfold mbind, result_bind at 1.
    destruct (f x) as [y|e] eqn:Hx; [|done].
    unfold mbind, result_bind at 1.
    destruct (mapM f l) as [ys|e]; [|done].
    inversion 1; subst. constructor; [done|]. by apply IH.
Qed.

Lemma matches_empty (d : doc) : matches ∅ d = true.
Proof. unfold matches. by rewrite map_to_list_empty. Qed.

Lemma matches_singleton (key s : string) (d : doc) :
  matches {[ key := VStr s ]} d = true → d !! key = Some (VStr s).
Proof.
  unfold matches. rewrite map_to_list_singleton. simpl.
  destruct (d !! key) as [w|]; [|done].
  rewrite andb_true_r. destruct w; simpl; try done.
  by intros ->%bool_decide_eq_true.
Qed.

Lemma filter_matches_empty (l : list doc) :
  filter (λ d, matches ∅ d) l = l.
Proof.
  induction l as [|d l IH]; [done|].
  rewrite filter_cons_True; [by rewrite IH|]. by rewrite matches_empty.
Qed.

(** The keyword arguments that [_serialize_master] passes on. *)
Lemma summary_kwargs_city (v1 v2 v3 v4 v5 v6 v7 v8 : value) :
  ({[ "id" := v1; "name" := v2; "role" := v3; "rating" := v4;
      "reviews_count" := v5; "city" := v6; "avatar" := v7;
      "verified" := v8 ]} : doc) !! "city" = Some v6.
Proof. reflexivity. Qed.

Lemma summary_kwargs_verified (v1 v2 v3 v4 v5 v6 v7 v8 : value) :
  ({[ "id" := v1; "name" := v2; "role" := v3; "rating" := v4;
      "reviews_count" := v5; "city" := v6; "avatar" := v7;
      "verified" := v8 ]} : doc) !! "verified" = Some v8.
Proof. reflexivity. Qed.

Section handler_facts.
Context `{Runtime}.

(** A summary carries the city and the verified flag of its document. *)
Lemma serialize_city_verified (d : doc) (o : MasterOut.t) :
  _serialize_master d = Ok o →
  optional as_str (Some (get d "city")) = Some (MasterOut.city o)
  ∧ MasterOut.verified o = truthy (get_or d "verified" (VBool false)).
Proof.
  unfold _serialize_master.
  destruct (index0 _) as [role|]; [|done]. cbn [mbind result_bind].
  destruct (float _) as [rating|]; [|done]. cbn [mbind result_bind].
  destruct (int _) as [count|]; [|done]. cbn [mbind result_bind].
  unfold construct.
  destruct (MasterOut.validate _) as [o'|] eqn:Hv; [|done].
  intros [= ->]. unfold MasterOut.validate in Hv. vap_inv Hv. simpl.
  repeat match goal with
  | Hf : field _ _ _ = Ok _ |- _ => apply field_Ok_inv in Hf
  end.
  rewrite summary_kwargs_city in *. rewrite summary_kwargs_verified in *.
  split; [done|].
  match goal with Hf : defaulted false as_bool _ = Some _ |- _ =>
    simpl in Hf; by inversion Hf end.
Qed.

(** The summary of a master this system stored; one that has an avatar
    has none, because the summary takes a text there and the document
    holds a URL object. *)
Lemma serialize_stored_master (m : Master.t) (oid : N) :
  _serialize_master (<["_id" := VObjectId oid]> (Master.dump m))
  = match Master.avatar m with
    | None => Ok (summary_of m oid)
    | Some _ => Err (ValidationError ["avatar"])
    end.
Proof.
  destruct m as [name email phone city bio avatar skills rating count].
  destruct city, avatar, skills; reflexivity.
Qed.

Lemma serialize_stored_master_Ok (m : Master.t) (oid : N) (o : MasterOut.t) :
  _serialize_master (<["_id" := VObjectId oid]> (Master.dump m)) = Ok o →
  Master.avatar m = None ∧ o = summary_of m oid.
Proof.
  rewrite serialize_stored_master. destruct (Master.avatar m); [done|].
  by intros [= <-].
Qed.
End handler_facts.

(** Resolves the lookups of literal keys in literal keyword arguments. *)
Ltac kw_lookup :=
  repeat first
    [ rewrite lookup_insert_eq
    | rewrite lookup_insert_ne by done
    | rewrite lookup_singleton_eq
    | rewrite lookup_singleton_ne by done ].

Ltac kw_lookup_in H :=
  repeat first
    [ rewrite lookup_insert_eq in H
    | rewrite lookup_insert_ne in H by done
    | rewrite lookup_singleton_eq in H
    | rewrite lookup_singleton_ne in H by done ].

Section booking_facts.
Context `{Runtime}.

(** The address of a validated request is in normal form: validating it
    again returns it as it is. *)
Lemma BookingRequest_validate_email (kw : doc) (req : BookingRequest.t) :
  BookingRequest.validate kw = Ok req →
  EmailStr (BookingRequest.email req) = Some (BookingRequest.email req).
Proof.
  unfold BookingRequest.validate. intros Hv. vap_inv Hv. simpl.
  repeat match goal with
  | Hf : field _ _ _ = Ok _ |- _ => apply field_Ok_inv in Hf
  end.
  match goal with Hf : required as_EmailStr _ = Some _ |- _ =>
    destruct (kw !! "email") as [[]|]; simpl in Hf; try done;
    by apply EmailStr_normal in Hf end.
Qed.

Lemma construct_client (req : BookingRequest.t) :
  EmailStr (BookingRequest.email req) = Some (BookingRequest.email req) →
  construct (Client.validate
    {[ "name" := VStr (BookingRequest.name req);
       "email" := VStr (BookingRequest.email req) ]}) = Ok (client_of req).
Proof.
  intros Hemail. unfold Client.validate, field. 
  kw_lookup. unfold required, as_EmailStr, as_str. simpl. by rewrite Hemail.
Qed.

Lemma construct_booking (req : BookingRequest.t) (client_id : string) :
  construct (Booking.validate
    {[ "master_id" := VStr (BookingRequest.master_id req);
       "client_id" := VStr client_id;
       "service_id" := VStr "unknown";
       "datetime_utc" := VDatetime (BookingRequest.datetime_utc req);
       "status" := VStr "pending";
       "notes" := opt_str (BookingRequest.notes req) ]})
  = Ok (booking_of req client_id).
Proof.
  destruct req as [mid name email dt notes]. destruct notes; reflexivity.
Qed.

Lemma construct_booking_out (booking_id : string) :
  construct (BookingOut.validate
    {[ "id" := VStr booking_id; "status" := VStr "pending" ]})
  = Ok {| BookingOut.id := booking_id; BookingOut.status := "pending" |}.
Proof. reflexivity. Qed.
End booking_facts.

Section serve_facts.
Context `{Runtime}.

(** [create_booking] on a request whose address is well-formed: two
    inserts in a row, nothing else. *)
Lemma create_booking_run (req : BookingRequest.t) (st : store) :
  EmailStr (BookingRequest.email req) = Some (BookingRequest.email req) →
  create_booking req st
  = match create_document "client" (Client.dump (client_of req)) st with
    | (Err e, st1) => (Err (InternalError e), st1)
    | (Ok client_id, st1) =>
        match create_document "booking"
                (Booking.dump (booking_of req client_id)) st1 with
        | (Err e, st2) => (Err (InternalError e), st2)
        | (Ok booking_id, st2) =>
            (Ok {| BookingOut.id := booking_id; BookingOut.status := "pending" |},
             st2)
        end
    end.
Proof.
  intros Hemail. unfold create_booking, try_500.
  rewrite bind_run. unfold lift at 1. rewrite (construct_client _ Hemail).
  rewrite bind_run.
  destruct (create_document "client" _ st) as [[client_id|e] st1]; [|done].
  rewrite bind_run. unfold lift at 1. rewrite construct_booking.
  rewrite bind_run.
  destruct (create_document "booking" _ st1) as [[booking_id|e] st2]; [|done].
  unfold lift. by rewrite construct_booking_out.
Qed.

Lemma surfaces_500_respond {A} (wrap : A → response) (h : endpoint A) :
  surfaces_500 h → surfaces_500 (respond wrap h).
Proof.
  intros Hh st. destruct (Hh st) as (new & Hlog & Hfail).
  exists new. unfold respond.
  destruct (h st) as [[a|e] st1]; simpl in *; (split; [done|]);
    intros c e' Hin; specialize (Hfail _ _ Hin); by inversion Hfail.
Qed.

Lemma surfaces_500_validated {A B} (v : V A) (h : A → endpoint B) :
  (∀ a, surfaces_500 (h a)) → surfaces_500 (validated v h).
Proof.
  intros Hh st. unfold validated. destruct v as [a|fields]; [apply Hh|].
  exists []. simpl. rewrite app_nil_r. split; [done|].
  intros c e Hin. by apply elem_of_nil in Hin.
Qed.

Lemma surfaces_500_validated_body {A B} (body : doc) (v : V A)
    (h : A → endpoint B) :
  (∀ a, surfaces_500 (h a)) → surfaces_500 (validated_body body v h).
Proof.
  intros Hh st. unfold validated_body. destruct v as [a|fields]; [apply Hh|].
  exists []. rewrite app_nil_r.
  destruct (renders body fields); (split; [done|]);
    intros c e Hin; by apply elem_of_nil in Hin.
Qed.

Lemma surfaces_create_booking (req : BookingRequest.t) :
  surfaces_500 (create_booking req).
Proof.
  apply surfaces_try_500.
  apply surfaces_bind; [apply surfaces_lift|]. intros client.
  apply surfaces_bind; [apply surfaces_create_document|]. intros client_id.
  apply surfaces_bind; [apply surfaces_lift|]. intros booking.
  apply surfaces_bind; [apply surfaces_create_document|]. intros booking_id.
  apply surfaces_lift.
Qed.

Lemma surfaces_seed_demo_data : surfaces_500 seed_demo_data.
Proof.
  intros st. unfold seed_demo_data.
  destruct (mapM _ seed_sample) as [sample|e].
  - apply surfaces_try_500.
    apply surfaces_bind.
    + apply surfaces_mapM. intros m. apply surfaces_create_document.
    + intros ids. apply surfaces_ret.
  - exists []. simpl. rewrite app_nil_r. split; [done|].
    intros c e' Hin. by apply elem_of_nil in Hin.
Qed.

Lemma surfaces_serve (r : request) : surfaces_500 (serve r).
Proof.
  destruct r as [|q|body| |body|q]; simpl.
  - intros st. exists []. simpl. rewrite app_nil_r. split; [done|].
    intros c e Hin. by apply elem_of_nil in Hin.
  - apply surfaces_500_validated. intros p. apply surfaces_500_respond.
    apply surfaces_try_500.
    apply surfaces_bind; [apply surfaces_get_documents|]. intros docs.
    apply surfaces_lift.
  - apply surfaces_500_validated_body. intros m. apply surfaces_500_respond.
    apply surfaces_try_500, surfaces_create_document.
  - apply surfaces_500_respond, surfaces_seed_demo_data.
  - apply surfaces_500_validated_body. intros req. apply surfaces_500_respond.
    apply surfaces_create_booking.
  - apply surfaces_500_validated. intros p. apply surfaces_500_respond.
    apply surfaces_try_500.
    apply surfaces_bind; [apply surfaces_get_documents|]. intros docs.
    apply surfaces_ret.
Qed.

Lemma keeps_respond {A} (I : store → Prop) (wrap : A → response)
    (h : endpoint A) :
  keeps I h → keeps I (respond wrap h).
Proof.
  intros Hh st Hst. specialize (Hh st Hst). unfold respond.
  by destruct (h st) as [[a|e] st1].
Qed.

Lemma seed_sample_in_bounds (sample : list Master.t) :
  mapM (λ kw, construct (Master.validate kw)) seed_sample = Ok sample →
  Forall master_in_bounds sample.
Proof.
  intros Hs. apply mapM_result_Forall2 in Hs.
  induction Hs as [|kw m kws ms Hm _ IH]; constructor; [|done].
  unfold construct in Hm.
  destruct (Master.validate kw) as [m'|] eqn:Hv; [|done].
  inversion Hm; subst. by apply Master_validate_bounds in Hv.
Qed.

Lemma keeps_serve (r : request) : keeps masters_ok (serve r).
Proof.
  destruct r as [|q|body| |body|q]; simpl.
  - by intros st Hst.
  - intros st Hst. unfold validated.
    destruct (masters_query q) as [p|]; [|done].
    apply keeps_respond; [apply keeps_try_500|done].
    apply keeps_bind; [apply keeps_get_documents|]. intros docs. apply keeps_lift.
  - intros st Hst. unfold validated_body.
    destruct (Master.validate body) as [m|fields] eqn:Hv;
      [|destruct (renders body fields); done].
    apply keeps_respond; [apply keeps_try_500|done].
    by apply keeps_create_master, (Master_validate_bounds body).
  - apply keeps_respond. intros st Hst. unfold seed_demo_data.
    destruct (mapM _ seed_sample) as [sample|e] eqn:Hs; [|done].
    apply keeps_try_500; [|done].
    apply keeps_bind; [|intros ids; apply keeps_ret].
    apply keeps_mapM. apply seed_sample_in_bounds in Hs.
    eapply Forall_impl; [exact Hs|]. intros m Hm. by apply keeps_create_master.
  - intros st Hst. unfold validated_body.
    destruct (BookingRequest.validate body) as [req|fields];
      [|destruct (renders body fields); done].
    apply keeps_respond; [apply keeps_try_500|done].
    apply keeps_bind; [apply keeps_lift|]. intros client.
    apply keeps_bind; [by apply keeps_create_other|]. intros client_id.
    apply keeps_bind; [apply keeps_lift|]. intros booking.
    apply keeps_bind; [by apply keeps_create_other|]. intros booking_id.
    apply keeps_lift.
  - intros st Hst. unfold validated.
    destruct (bookings_query q) as [p|]; [|done].
    apply keeps_respond; [apply keeps_try_500|done].
    apply keeps_bind; [apply keeps_get_documents|]. intros docs. apply keeps_ret.
Qed.

Lemma run_masters_ok (rs : list request) (st : store) :
  masters_ok st → masters_ok (run rs st).
Proof.
  revert st. induction rs as [|r rs IH]; intros st Hst; [done|].
  simpl. apply IH. by apply keeps_serve.
Qed.

Lemma fresh_masters_ok (conn : bool) (plan : list bool) :
  masters_ok (fresh conn plan).
Proof. unfold masters_ok, collection. simpl. by rewrite lookup_empty. Qed.
End serve_facts.

(** ** Which calls reach the gateway *)

Lemma emits_nothing {A} (P : call → Prop) (h : store → A * store) :
  (∀ st, (h st).2 = st) → emits P h.
Proof. intros Hh st. exists []. by rewrite Hh, app_nil_r. Qed.

Lemma emits_create_document (P : call → Prop) (kind : string) (record : doc) :
  P (Insert kind record) → emits P (create_document kind record).
Proof.
  intros HP st. unfold create_document.
  destruct (connected st); simpl; [destruct (write_plan st) as [|[] plan]|];
    simpl; eexists; (split; [reflexivity|]); by apply Forall_singleton.
Qed.

Lemma emits_get_documents (P : call → Prop) (kind : string) (flt : doc)
    (limit : Z) :
  P (Find kind flt limit) → emits P (get_documents kind flt limit).
Proof.
  intros HP st. unfold get_documents.
  destruct (connected st); simpl; eexists; (split; [reflexivity|]);
    by apply Forall_singleton.
Qed.

Lemma emits_bind {A B} (P : call → Prop) (m : M A) (k : A → M B) :
  emits P m → (∀ a, emits P (k a)) → emits P (m ≫= k).
Proof.
  intros Hm Hk st. rewrite bind_run.
  destruct (Hm st) as (new1 & Hlog1 & HP1).
  destruct (m st) as [[a|e] st1]; simpl in *; [|by exists new1].
  destruct (Hk a st1) as (new2 & Hlog2 & HP2).
  exists (new1 ++ new2). split.
  - by rewrite Hlog2, Hlog1, app_assoc.
  - by apply Forall_app.
Qed.

Lemma emits_mapM {A B} (P : call → Prop) (f : A → M B) (l : list A) :
  (∀ a, emits P (f a)) → emits P (mapM f l).
Proof.
  intros Hf. induction l as [|x l IH].
  - by apply emits_nothing.
  - apply (emits_bind P (f x)); [apply Hf|]. intros y.
    apply (emits_bind P (mapM f l)); [apply IH|]. intros ys.
    by apply emits_nothing.
Qed.

Lemma emits_try_500 {A} (P : call → Prop) (m : M A) :
  emits P m → emits P (try_500 m).
Proof.
  intros Hm st. destruct (Hm st) as (new & Hlog & HP).
  exists new. unfold try_500. by destruct (m st) as [[a|e] st1].
Qed.

Section request_facts.
Context `{Runtime}.

Lemma emits_respond {A} (P : call → Prop) (wrap : A → response) (h : endpoint A) :
  emits P h → emits P (respond wrap h).
Proof.
  intros Hh st. destruct (Hh st) as (new & Hlog & HP).
  exists new. unfold respond. by destruct (h st) as [[a|e] st1].
Qed.

Lemma limit_param_Some (d hi : Z) (o : option value) (z : Z) :
  limit_param d hi o = Some z →
  (o = None ∧ z = d) ∨ (∃ v, o = Some v ∧ as_int v = Some z ∧ 1 ≤ z ≤ hi).
Proof.
  unfold limit_param. destruct o as [v|]; simpl.
  - destruct (as_int v) as [z0|] eqn:Hv; simpl; [|done].
    unfold ge_int, le_int.
    destruct (check _ z0) as [z1|] eqn:H1; simpl; [|done].
    apply check_Some in H1 as [-> H1]. intros H2.
    apply check_Some in H2 as [-> H2].
    apply bool_decide_eq_true in H1, H2. right. by exists v.
  - intros [= <-]. by left.
Qed.

Lemma limit_param_out (d hi : Z) (v : value) (z : Z) :
  as_int v = Some z → ¬ (1 ≤ z ≤ hi) → limit_param d hi (Some v) = None.
Proof.
  intros Hv Hout. unfold limit_param. simpl. rewrite Hv. simpl.
  unfold ge_int, le_int, check.
  destruct (bool_decide (1 ≤ z)) eqn:H1; simpl; [|done].
  destruct (bool_decide (z ≤ hi)) eqn:H2; simpl; [|done].
  apply bool_decide_eq_true in H1, H2. lia.
Qed.

Lemma limit_param_in (d hi : Z) (v : value) (z : Z) :
  as_int v = Some z → 1 ≤ z ≤ hi → limit_param d hi (Some v) = Some z.
Proof.
  intros Hv [H1 H2]. unfold limit_param. simpl. rewrite Hv. simpl.
  unfold ge_int, le_int, check.
  rewrite (bool_decide_eq_true_2 _ H1). simpl.
  by rewrite (bool_decide_eq_true_2 _ H2).
Qed.

(** The parameters of a listing, once validated. *)
Lemma listing_query_Ok (key : string) (d hi : Z) (q : doc) (p : option string * Z) :
  Ok pair <*> field q key (optional as_str) <*> field q "limit" (limit_param d hi)
    = Ok p →
  optional as_str (q !! key) = Some p.1 ∧ limit_param d hi (q !! "limit") = Some p.2.
Proof.
  intros Hv. vap_inv Hv. simpl.
  repeat match goal with
  | Hf : field _ _ _ = Ok _ |- _ => apply field_Ok_inv in Hf
  end.
  done.
Qed.

Lemma listing_query_accepts (key : string) (d hi : Z) (q : doc)
    (x : option string) (z : Z) :
  optional as_str (q !! key) = Some x → limit_param d hi (q !! "limit") = Some z →
  Ok pair <*> field q key (optional as_str) <*> field q "limit" (limit_param d hi)
    = Ok (x, z).
Proof. intros Hx Hz. unfold field. by rewrite Hx, Hz. Qed.

Lemma listing_query_rejects (key : string) (d hi : Z) (q : doc) :
  limit_param d hi (q !! "limit") = None →
  ∃ fields,
    Ok pair <*> field q key (optional as_str) <*> field q "limit" (limit_param d hi)
      = Err fields
    ∧ "limit" ∈ fields.
Proof.
  intros Hbad. apply errors_nonempty. rewrite !vap_errors.
  rewrite (field_errors _ _ _ Hbad). set_solver.
Qed.

Lemma BookingRequest_validate_rejects (kw : doc) (name : string) :
  (name = "master_id" ∧ required as_str (kw !! "master_id") = None)
  ∨ (name = "name" ∧ required as_str (kw !! "name") = None)
  ∨ (name = "email" ∧ required as_EmailStr (kw !! "email") = None)
  ∨ (name = "datetime_utc" ∧ required as_datetime (kw !! "datetime_utc") = None)
  ∨ (name = "notes" ∧ optional as_str (kw !! "notes") = None) →
  ∃ fields, BookingRequest.validate kw = Err fields ∧ name ∈ fields.
Proof.
  intros Hbad. apply errors_nonempty.
  unfold BookingRequest.validate. rewrite !vap_errors. simpl.
  destruct Hbad as [[-> Hb]|[[-> Hb]|[[-> Hb]|[[-> Hb]|[-> Hb]]]]];
    rewrite (field_errors _ _ _ Hb); set_solver.
Qed.

Lemma float_no_IndexError (v : value) : float v ≠ Err IndexError.
Proof.
  destruct v as [| |z| |s| | | |]; cbn [float]; try done.
  - by destruct (is_finite (double z)).
  - by destruct (float_of_str s).
Qed.

Lemma int_no_IndexError (v : value) : int v ≠ Err IndexError.
Proof.
  destruct v as [| | |x|s| | | |]; cbn [int]; try done.
  - by destruct (is_finite x), (is_nan x).
  - by destruct (int_of_str s).
Qed.

(** What the masters listing does with the gateway's answer. *)
Lemma list_masters_run (city : option string) (limit : Z) (st : store) :
  list_masters city limit st
  = let flt := filter_on "city" city in
    if connected st then
      (match mapM _serialize_master
               (take (Z.to_nat limit)
                  (filter (λ d, matches flt d) (collection st "master"))) with
       | Ok outs => Ok outs
       | Err e => Err (InternalError e)
       end,
       log (Find "master" flt limit) None st)
    else
      (Err (InternalError StoreUnavailable),
       log (Find "master" flt limit) (Some StoreUnavailable) st).
Proof.
  unfold list_masters, try_500. rewrite bind_run. unfold get_documents.
  destruct (connected st); simpl; [|done].
  unfold lift. by destruct (mapM _ _).
Qed.

Lemma emits_serve (r : request) : emits limit_in_range (serve r).
Proof.
  destruct r as [|q|body| |body|q]; simpl.
  - by apply emits_nothing.
  - intros st. unfold validated.
    destruct (masters_query q) as [p|] eqn:Hq; [|by apply emits_nothing].
    apply listing_query_Ok in Hq as [_ Hl].
    apply emits_respond, emits_try_500, emits_bind.
    + apply emits_get_documents. left. split; [done|].
      apply limit_param_Some in Hl as [[_ ->]|(v & _ & _ & ?)]; lia.
    + intros docs. by apply emits_nothing.
  - intros st. unfold validated_body.
    destruct (Master.validate body) as [m|fields];
      [|destruct (renders body fields); by apply emits_nothing].
    by apply emits_respond, emits_try_500, emits_create_document.
  - apply emits_respond. intros st. unfold seed_demo_data.
    destruct (mapM _ seed_sample) as [sample|e]; [|by apply emits_nothing].
    apply emits_try_500, emits_bind.
    + apply emits_mapM. intros m. by apply emits_create_document.
    + intros ids. by apply emits_nothing.
  - intros st. unfold validated_body.
    destruct (BookingRequest.validate body) as [req|fields];
      [|destruct (renders body fields); by apply emits_nothing].
    apply emits_respond, emits_try_500.
    apply emits_bind; [by apply emits_nothing|]. intros client.
    apply emits_bind; [by apply emits_create_document|]. intros client_id.
    apply emits_bind; [by apply emits_nothing|]. intros booking.
    apply emits_bind; [by apply emits_create_document|]. intros booking_id.
    by apply emits_nothing.
  - intros st. unfold validated.
    destruct (bookings_query q) as [p|] eqn:Hq; [|by apply emits_nothing].
    apply listing_query_Ok in Hq as [_ Hl].
    apply emits_respond, emits_try_500, emits_bind.
    + apply emits_get_documents. right. split; [done|].
      apply limit_param_Some in Hl as [[_ ->]|(v & _ & _ & ?)]; lia.
    + intros docs. by apply emits_nothing.
Qed.

Lemma new_calls_of (r : request) (st : store) (new : list (call * option exn)) :
  oplog (serve r st).2 = oplog st ++ new → new_calls r st = new.
Proof. intros Hlog. unfold new_calls. by rewrite Hlog, drop_app_length. Qed.
End request_facts.

(** ** Connectivity is settled once *)

Lemma keeps_connected_create (b : bool) (kind : string) (record : doc) :
  keeps (λ st, connected st = b) (create_document kind record).
Proof.
  intros st <-. unfold create_document.
  destruct (connected st) eqn:Hc; simpl; [|done].
  by destruct (write_plan st) as [|[] plan].
Qed.

Lemma keeps_connected_get (b : bool) (kind : string) (flt : doc) (limit : Z) :
  keeps (λ st, connected st = b) (get_documents kind flt limit).
Proof.
  intros st <-. unfold get_documents. by destruct (connected st) eqn:Hc.
Qed.

Section listing_facts.
Context `{Runtime}.

Lemma keeps_connected_serve (b : bool) (r : request) :
  keeps (λ st, connected st = b) (serve r).
Proof.
  destruct r as [|q|body| |body|q]; simpl.
  - by intros st Hst.
  - intros st Hst. unfold validated.
    destruct (masters_query q) as [p|]; [|done].
    apply (keeps_respond (λ st, connected st = b)); [apply keeps_try_500|done].
    apply keeps_bind; [apply keeps_connected_get|]. intros docs. apply keeps_lift.
  - intros st Hst. unfold validated_body.
    destruct (Master.validate body) as [m|fields];
      [|destruct (renders body fields); done].
    apply (keeps_respond (λ st, connected st = b)); [apply keeps_try_500|done].
    apply keeps_connected_create.
  - apply keeps_respond. intros st Hst. unfold seed_demo_data.
    destruct (mapM _ seed_sample) as [sample|e]; [|done].
    apply (keeps_try_500 (λ st, connected st = b)); [|done].
    apply keeps_bind; [|intros ids; apply keeps_ret].
    apply keeps_mapM, Forall_forall. intros m _. apply keeps_connected_create.
  - intros st Hst. unfold validated_body.
    destruct (BookingRequest.validate body) as [req|fields];
      [|destruct (renders body fields); done].
    apply (keeps_respond (λ st, connected st = b)); [apply keeps_try_500|done].
    apply keeps_bind; [apply keeps_lift|]. intros client.
    apply keeps_bind; [apply keeps_connected_create|]. intros client_id.
    apply keeps_bind; [apply keeps_lift|]. intros booking.
    apply keeps_bind; [apply keeps_connected_create|]. intros booking_id.
    apply keeps_lift.
  - intros st Hst. unfold validated.
    destruct (bookings_query q) as [p|]; [|done].
    apply (keeps_respond (λ st, connected st = b)); [apply keeps_try_500|done].
    apply keeps_bind; [apply keeps_connected_get|]. intros docs. apply keeps_ret.
Qed.

Lemma run_connected (rs : list request) (st : store) :
  connected (run rs st) = connected st.
Proof.
  revert st. induction rs as [|r rs IH]; intros st; [done|].
  simpl. rewrite IH. by apply (keeps_connected_serve (connected st) r).
Qed.

(** ** Listings of a store this system filled *)

(** Every summary that [list_masters] returns is the summary of a stored
    master. *)
Lemma list_masters_summaries (city : option string) (limit : Z) (st st' : store)
    (outs : list MasterOut.t) :
  masters_ok st →
  list_masters city limit st = (Ok outs, st') →
  Forall (λ o, ∃ m oid,
            <["_id" := VObjectId oid]> (Master.dump m) ∈ collection st "master"
            ∧ o = summary_of m oid) outs.
Proof.
  intros Hst. rewrite list_masters_run. simpl.
  destruct (connected st); [|done].
  destruct (mapM _ _) as [outs'|] eqn:Hm; [|done].
  intros [= <- <-]. apply mapM_result_Forall2 in Hm.
  eapply Forall2_Forall_r; [exact Hm|].
  apply Forall_forall. intros d Hd o Ho.
  apply subseteq_take, list_elem_of_filter in Hd as [_ Hd].
  destruct (proj1 (Forall_forall _ _) Hst d Hd) as (m & oid & _ & ->).
  apply serialize_stored_master_Ok in Ho as [_ ->]. by exists m, oid.
Qed.

(** When the masters that the gateway returns have no avatar, the
    listing cannot fail once the gateway answers. *)
Lemma list_masters_total (city : option string) (limit : Z) (st : store) :
  Forall stored_without_avatar
    (take (Z.to_nat limit)
       (filter (λ d, matches (filter_on "city" city) d) (collection st "master"))) →
  connected st = true →
  ∃ outs, (list_masters city limit st).1 = Ok outs.
Proof.
  intros Hall Hc. rewrite list_masters_run. simpl. rewrite Hc. simpl.
  induction Hall as [|d docs (m & oid & Hm & ->) _ IH]; [by exists []|].
  destruct IH as [outs IH]. exists (summary_of m oid :: outs).
  simpl. unfold mbind, result_bind at 1.
  rewrite serialize_stored_master, Hm.
  unfold mbind, result_bind at 1.
  by destruct (mapM _serialize_master docs) as [outs'|]; inversion IH.
Qed.
End listing_facts.

(** ** Reports that cannot be written *)

Lemma finite_doc_lookup (d : doc) (k : string) (v : value) :
  finite_doc d = true → d !! k = Some v → finite v = true.
Proof.
  unfold finite_doc. intros Hd%bool_decide_eq_true Hk. by apply (Hd k v).
Qed.

Lemma finite_doc_insert (d : doc) (k : string) (v : value) :
  finite v = true → finite_doc d = true → finite_doc (<[k := v]> d) = true.
Proof.
  unfold finite_doc. intros Hv Hd%bool_decide_eq_true.
  apply bool_decide_eq_true. by apply map_Forall_insert_2.
Qed.

(** The report of a body without NaN and infinities can be written. *)
Lemma renders_finite_doc (body : doc) (fields : list string) :
  finite_doc body = true → renders body fields = true.
Proof.
  intros Hd. unfold renders. apply forallb_forall. intros name _.
  destruct (body !! name) as [v|] eqn:Hv; [|done].
  by apply (finite_doc_lookup body name).
Qed.

Section rejection_facts.
Context `{Runtime}.

(** A request with a report is not served: it is answered with the
    report, or with a server error when the report cannot be written, and
    the store is as before. *)
Lemma serve_rejected (r : request) (st : store) :
  report r ≠ [] → serve r st = (Err (rejection r), st).
Proof.
  unfold rejection, writable.
  destruct r as [|q|body| |body|q]; cbn [serve report]; try done;
    unfold validated, validated_body.
  - by destruct (masters_query q) as [p|fields].
  - destruct (Master.validate body) as [m|fields]; [done|].
    cbn [errors_of]. by destruct (renders body fields).
  - destruct (BookingRequest.validate body) as [req|fields]; [done|].
    cbn [errors_of]. by destruct (renders body fields).
  - by destruct (bookings_query q) as [p|fields].
Qed.

Lemma reported_is_rejected (r : request) (name : string) (st : store) :
  name ∈ report r → serve r st = (Err (rejection r), st).
Proof.
  intros Hin. apply serve_rejected. intros Hnil. rewrite Hnil in Hin.
  by apply elem_of_nil in Hin.
Qed.

Lemma writable_finite_body (r : request) :
  match r with
  | POST_masters body | POST_bookings body => finite_doc body = true
  | _ => True
  end → rejection r = InvalidInput (report r).
Proof.
  unfold rejection, writable.
  destruct r; try done; intros Hd; by rewrite renders_finite_doc.
Qed.
End rejection_facts.

Section bound_facts.
Context `{Runtime}.

Lemma validate_nan_body : Master.validate nan_body = Ok nan_master.
Proof. reflexivity. Qed.

Lemma serve_inf_body (st : store) :
  serve (POST_masters inf_body) st = (Err (InternalError ValueError), st).
Proof. reflexivity. Qed.

(** A master that is accepted and that the store takes. *)
Lemma create_master_stored (kw : doc) (m : Master.t) (st : store) :
  Master.validate kw = Ok m →
  connected st = true → true ∉ take 1 (write_plan st) →
  let r := serve (POST_masters kw) st in
  r.1 = Ok (CreatedR (oid_str (next_oid st)))
  ∧ connected r.2 = true
  ∧ collection r.2 "master"
    = collection st "master"
      ++ [<["_id" := VObjectId (next_oid st)]> (Master.dump m)]
  ∧ oplog r.2 = oplog st ++ [(Insert "master" (Master.dump m), None)].
Proof.
  intros Hv Hc Hplan r.
  destruct (create_document_Ok "master" (Master.dump m) st Hc Hplan)
    as (R1 & C1 & _ & L1 & Hc1 & _ & _).
  assert (Hr : r = (Ok (CreatedR (oid_str (next_oid st))),
                    (create_document "master" (Master.dump m) st).2)).
  { unfold r. cbn [serve]. unfold validated_body. rewrite Hv.
    unfold respond, create_master, try_500.
    destruct (create_document "master" (Master.dump m) st) as [r1 st1].
    cbn [fst snd] in *. by subst r1. }
  rewrite Hr. by repeat split.
Qed.

(** A master constructed from a float rating and an integer count holds
    them as they are. *)
Lemma constructed_rating (kw : doc) (m : Master.t) (x : spec_float) (z : Z) :
  construct (Master.validate kw) = Ok m →
  kw !! "rating" = Some (VFloat x) → kw !! "reviews_count" = Some (VInt z) →
  Master.rating m = x ∧ Master.reviews_count m = z.
Proof.
  unfold construct. destruct (Master.validate kw) as [m'|] eqn:Hv; [|done].
  intros [= ->] Hx Hz.
  apply Master_validate_fields in Hv as (_ & _ & _ & Hr & Hc).
  rewrite Hx in Hr. rewrite Hz in Hc. cbn [defaulted] in Hr, Hc.
  apply rating_conv_Some in Hr as ([= <-] & _).
  by apply reviews_conv_Some in Hc as ([= <-] & _).
Qed.

Lemma seed_sample_ratings (sample : list Master.t) :
  mapM (λ kw, construct (Master.validate kw)) seed_sample = Ok sample →
  Forall (λ m, between 0 5 (Master.rating m) ∧ 0 ≤ Master.reviews_count m) sample.
Proof.
  intros Hs. apply mapM_result_Forall2 in Hs. unfold seed_sample in Hs.
  apply Forall2_cons_inv_l in Hs as (m1 & ms1 & Hm1 & Hs & ->).
  apply Forall2_cons_inv_l in Hs as (m2 & ms2 & Hm2 & Hs & ->).
  apply Forall2_cons_inv_l in Hs as (m3 & ms3 & Hm3 & Hs & ->).
  apply Forall2_nil_inv_l in Hs as ->.
  destruct (constructed_rating _ _ _ _ Hm1 eq_refl eq_refl) as [R1 C1].
  destruct (constructed_rating _ _ _ _ Hm2 eq_refl eq_refl) as [R2 C2].
  destruct (constructed_rating _ _ _ _ Hm3 eq_refl eq_refl) as [R3 C3].
  clear Hm1 Hm2 Hm3.
  repeat (apply Forall_cons; split; [split|]); [..|done];
    first [ rewrite R1 | rewrite R2 | rewrite R3
          | rewrite C1 | rewrite C2 | rewrite C3 ];
    first [ split; vm_compute; reflexivity | done ].
Qed.
End bound_facts.

Section violation_facts.
Context `{Runtime}.

(** A violation is reported under its field, unless it is a rating of
    NaN. *)
Lemma violation_is_reported (r : request) (name : string) :
  violates r name → (name = "rating" → ¬ nan_rating r) → name ∈ report r.
Proof.
  intros Hbad Hnan.
  assert (Hin : ∀ {A} (v : V A), (∃ fields, v = Err fields ∧ name ∈ fields) →
                  name ∈ errors_of v).
  { intros A v (fields & -> & Hin). exact Hin. }
  destruct Hbad as [body Hkw|body e Hkw He|body v x Hkw Hv Hout
    |body v z Hkw Hv Hneg|body name Hname Hkw|body e Hkw He
    |q v z Hq Hv Hout|q v z Hq Hv Hout]; cbn [report]; apply Hin.
  - apply Master_validate_rejects. left. split; [done|]. by rewrite Hkw.
  - apply Master_validate_rejects. right. left. split; [done|].
    rewrite Hkw. cbn [optional]. unfold as_EmailStr. cbn [as_str mbind option_bind].
    by rewrite He.
  - apply Master_validate_rejects. do 7 right. left. split; [done|].
    rewrite Hkw. cbn [defaulted]. apply (rating_conv_None v x Hv).
    apply outside_fails; [|done].
    destruct x; try done. destruct (Hnan eq_refl). by exists body, v.
  - apply Master_validate_rejects. do 8 right. split; [done|].
    rewrite Hkw. cbn [defaulted]. by apply (reviews_conv_None v z).
  - apply BookingRequest_validate_rejects.
    repeat (apply elem_of_cons in Hname as [->|Hname];
            [rewrite Hkw; naive_solver|]).
    by apply elem_of_nil in Hname.
  - apply BookingRequest_validate_rejects. do 2 right. left. split; [done|].
    rewrite Hkw. cbn [required]. unfold as_EmailStr. cbn [as_str mbind option_bind].
    by rewrite He.
  - unfold masters_query. apply listing_query_rejects.
    rewrite Hq. by apply (limit_param_out _ _ _ z).
  - unfold bookings_query. apply listing_query_rejects.
    rewrite Hq. by apply (limit_param_out _ _ _ z).
Qed.
End violation_facts.

(** * The claims *)

(** C5. [get_schema] answers with a mapping whose keys are exactly the six
    entity kinds master, client, service, booking, review and
    portfolioitem, each with the description of its model; the answer is
    the same whatever the store holds, and the store is left as it was. *)
Theorem get_schema_has_exactly_the_six_kinds `{Runtime} :
  dom get_schema
    = ({[ "master"; "client"; "service"; "booking"; "review";
          "portfolioitem" ]} : gset string)
  ∧ size get_schema = 6%nat
  ∧ (∀ name m, (name, m) ∈ ALL_SCHEMAS →
       get_schema !! name = Some (model_json_schema m))
  ∧ ∀ st st' : store,
      serve GET_schema st = (Ok (SchemaR get_schema), st)
      ∧ (serve GET_schema st).1 = (serve GET_schema st').1.
Proof.
  split; [|split; [|split]].
  - unfold get_schema, ALL_SCHEMAS. simpl.
    rewrite !dom_insert_L, dom_empty_L. set_solver.
  - reflexivity.
  - intros name m Hin. unfold ALL_SCHEMAS in Hin.
    repeat (apply elem_of_cons in Hin as [[= -> ->]|Hin]; [reflexivity|]).
    by apply elem_of_nil in Hin.
  - intros st st'. by split.
Qed.

Lemma get_schema_has_exactly_the_six_kinds_witness :
  get_schema !! "portfolioitem" = Some (model_json_schema PortfolioitemModel).
Proof.
  apply (proj1 (proj2 (proj2
           (@get_schema_has_exactly_the_six_kinds sample_runtime)))).
  unfold ALL_SCHEMAS. do 5 apply list_elem_of_further. apply list_elem_of_here.
Defined.

(** C9. An empty text as [city] is no filter at all: [list_masters]
    answers as it does without the parameter, and so does [list_bookings]
    for an empty [master_id]; the same holds of the two requests. *)
Theorem empty_text_filter_is_no_filter `{Runtime}
    (limit : Z) (q : doc) (st : store) :
  list_masters (Some "") limit st = list_masters None limit st
  ∧ list_bookings (Some "") limit st = list_bookings None limit st
  ∧ serve (GET_masters (<["city" := VStr ""]> q)) st
    = serve (GET_masters (delete "city" q)) st
  ∧ serve (GET_bookings (<["master_id" := VStr ""]> q)) st
    = serve (GET_bookings (delete "master_id" q)) st.
Proof.
  split; [reflexivity|]. split; [reflexivity|].
  split; simpl; unfold validated, masters_query, bookings_query, field;
    rewrite lookup_insert_eq, lookup_delete_eq;
    rewrite lookup_insert_ne, lookup_delete_ne by done; simpl;
    by destruct (limit_param _ _ _).
Qed.

(** C2, as amended.  A limit outside [1,100] for the masters listing,
    or outside [1,200] for the bookings listing, is rejected as
    [InvalidInput] naming [limit], and the store is not touched; a limit
    inside the range reaches the handler unchanged; without a limit the
    handler gets 12, respectively 50.  No request makes the gateway see a
    limit outside these ranges. *)
Theorem limit_out_of_range_is_rejected `{Runtime} (q : doc) (st : store) :
  (∀ v z, q !! "limit" = Some v → as_int v = Some z → ¬ (1 ≤ z ≤ 100) →
     ∃ fields, "limit" ∈ fields
       ∧ serve (GET_masters q) st = (Err (InvalidInput fields), st))
  ∧ (∀ v z, q !! "limit" = Some v → as_int v = Some z → ¬ (1 ≤ z ≤ 200) →
     ∃ fields, "limit" ∈ fields
       ∧ serve (GET_bookings q) st = (Err (InvalidInput fields), st))
  ∧ (∀ v z city, q !! "limit" = Some v → as_int v = Some z → 1 ≤ z ≤ 100 →
     optional as_str (q !! "city") = Some city →
     serve (GET_masters q) st = respond MastersR (list_masters city z) st)
  ∧ (∀ v z master_id, q !! "limit" = Some v → as_int v = Some z → 1 ≤ z ≤ 200 →
     optional as_str (q !! "master_id") = Some master_id →
     serve (GET_bookings q) st
     = respond BookingsR (list_bookings master_id z) st)
  ∧ (∀ city, q !! "limit" = None →
     optional as_str (q !! "city") = Some city →
     serve (GET_masters q) st = respond MastersR (list_masters city 12) st)
  ∧ (∀ master_id, q !! "limit" = None →
     optional as_str (q !! "master_id") = Some master_id →
     serve (GET_bookings q) st
     = respond BookingsR (list_bookings master_id 50) st)
  ∧ (∀ r c outcome, (c, outcome) ∈ new_calls r st → limit_in_range c).
Proof.
  repeat split.
  - intros v z Hq Hv Hout. simpl. unfold validated, masters_query.
    destruct (listing_query_rejects "city" 12 100 q) as (fields & -> & Hin).
    { rewrite Hq. by apply (limit_param_out _ _ _ z). }
    by exists fields.
  - intros v z Hq Hv Hout. simpl. unfold validated, bookings_query.
    destruct (listing_query_rejects "master_id" 50 200 q) as (fields & -> & Hin).
    { rewrite Hq. by apply (limit_param_out _ _ _ z). }
    by exists fields.
  - intros v z city Hq Hv Hin Hcity. simpl. unfold validated, masters_query.
    rewrite (listing_query_accepts "city" 12 100 q city z); [done|done|].
    rewrite Hq. by apply limit_param_in.
  - intros v z mid Hq Hv Hin Hmid. simpl. unfold validated, bookings_query.
    rewrite (listing_query_accepts "master_id" 50 200 q mid z); [done|done|].
    rewrite Hq. by apply limit_param_in.
  - intros city Hq Hcity. simpl. unfold validated, masters_query.
    rewrite (listing_query_accepts "city" 12 100 q city 12); [done|done|].
    by rewrite Hq.
  - intros mid Hq Hmid. simpl. unfold validated, bookings_query.
    rewrite (listing_query_accepts "master_id" 50 200 q mid 50); [done|done|].
    by rewrite Hq.
  - intros r c outcome Hin.
    destruct (emits_serve r st) as (new & Hlog & HP).
    rewrite (new_calls_of r st new Hlog) in Hin.
    by apply (proj1 (Forall_forall _ _) HP (c, outcome)).
Qed.

(** C2, as stated, fails: after seeding, a limit of 150 on the masters
    listing is turned away, it is not answered as a limit of 100 would
    be. *)
Lemma limit_is_not_clamped :
  let st := @run sample_runtime [POST_seed] (fresh true []) in
  @serve sample_runtime (GET_masters {[ "limit" := VInt 150 ]}) st
    = (Err (InvalidInput ["limit"]), st)
  ∧ (@serve sample_runtime (GET_masters {[ "limit" := VInt 150 ]}) st).1
    ≠ (@serve sample_runtime
         (GET_masters {[ "limit" := VInt (clamp 1 100 150) ]}) st).1
  ∧ ¬ (∀ (rt : Runtime) (q : doc) (z : Z) (st : store),
         q !! "limit" = Some (VInt z) →
         @serve rt (GET_masters q) st
         = @serve rt (GET_masters (<["limit" := VInt (clamp 1 100 z)]> q)) st).
Proof.
  split; [by vm_compute|]. split; [by vm_compute|].
  intros Hclamped.
  specialize (Hclamped sample_runtime {[ "limit" := VInt 150 ]} 150
                (fresh true []) eq_refl).
  vm_compute in Hclamped. discriminate Hclamped.
Qed.

Lemma limit_out_of_range_is_rejected_witness :
  ∃ fields, "limit" ∈ fields
    ∧ @serve sample_runtime (GET_masters {[ "limit" := VInt 0 ]}) (fresh true [])
      = (Err (InvalidInput fields), fresh true []).
Proof.
  apply (proj1 (@limit_out_of_range_is_rejected sample_runtime
                  {[ "limit" := VInt 0 ]} (fresh true [])) (VInt 0) 0);
    [reflexivity | reflexivity | lia].
Defined.

(** C6. The claim fails on two bodies that the endpoint can receive.  A
    rating of NaN passes both bounds, because NaN compares neither below
    0 nor above 5: the master is accepted and stored with a rating that
    is not within [0,5].  A rating of infinity is refused, but the
    answer is a server error that names no field, not [InvalidInput].
    What does hold: an accepted [Master] has a rating that is within
    [0,5] or is NaN, and a count of reviews that is not negative; a body
    without rating, reviews count or skills gets 0, 0 and the empty
    list; any other rating outside [0,5], and a negative count, are
    refused before the store is touched, under the field's name whenever
    the report can be written; the seeded masters are within the bounds;
    and every master in a store this system filled is within them or has
    the rating NaN. *)
Theorem rating_bounds_let_nan_through `{Runtime} (kw : doc) (st : store) :
  (Master.validate nan_body = Ok nan_master
   ∧ Master.rating nan_master = S754_nan
   ∧ ¬ between 0 5 (Master.rating nan_master))
  ∧ (connected st = true → true ∉ take 1 (write_plan st) →
     (serve (POST_masters nan_body) st).1 = Ok (CreatedR (oid_str (next_oid st)))
     ∧ collection (serve (POST_masters nan_body) st).2 "master"
       = collection st "master"
         ++ [<["_id" := VObjectId (next_oid st)]> (Master.dump nan_master)])
  ∧ (¬ between 0 5 (S754_infinity false)
     ∧ serve (POST_masters inf_body) st = (Err (InternalError ValueError), st))
  ∧ (∀ m, Master.validate kw = Ok m →
     (is_nan (Master.rating m) = true ∨ between 0 5 (Master.rating m))
     ∧ 0 ≤ Master.reviews_count m
     ∧ (kw !! "rating" = None → Master.rating m = double 0)
     ∧ (kw !! "reviews_count" = None → Master.reviews_count m = 0)
     ∧ (kw !! "skills" = None → Master.skills m = []))
  ∧ (∀ v x, kw !! "rating" = Some v → as_float v = Some x →
     is_nan x = false → ¬ between 0 5 x →
     "rating" ∈ report (POST_masters kw)
     ∧ serve (POST_masters kw) st = (Err (rejection (POST_masters kw)), st)
     ∧ (finite_doc kw = true →
        rejection (POST_masters kw) = InvalidInput (report (POST_masters kw))))
  ∧ (∀ v z, kw !! "reviews_count" = Some v → as_int v = Some z → z < 0 →
     "reviews_count" ∈ report (POST_masters kw)
     ∧ serve (POST_masters kw) st = (Err (rejection (POST_masters kw)), st)
     ∧ (finite_doc kw = true →
        rejection (POST_masters kw) = InvalidInput (report (POST_masters kw))))
  ∧ (∀ sample,
     mapM (λ kw, construct (Master.validate kw)) seed_sample = Ok sample →
     Forall (λ m, between 0 5 (Master.rating m) ∧ 0 ≤ Master.reviews_count m)
       sample)
  ∧ (∀ rs conn plan, masters_ok (run rs (fresh conn plan))).
Proof.
  assert (Hreported : ∀ name,
    name ∈ report (POST_masters kw) →
    name ∈ report (POST_masters kw)
    ∧ serve (POST_masters kw) st = (Err (rejection (POST_masters kw)), st)
    ∧ (finite_doc kw = true →
       rejection (POST_masters kw) = InvalidInput (report (POST_masters kw)))).
  { intros name Hin. split; [done|]. split.
    - by apply (reported_is_rejected _ name).
    - apply (writable_finite_body (POST_masters kw)). }
  split; [|split; [|split; [|split; [|split; [|split; [|split]]]]]].
  - split; [apply validate_nan_body|]. split; [done|].
    by apply nan_is_not_between.
  - intros Hc Hplan.
    by destruct (create_master_stored nan_body nan_master st validate_nan_body
                   Hc Hplan) as (Hr & _ & Hcoll & _).
  - split; [|apply serve_inf_body]. by intros [_ Hhi].
  - intros m Hv. destruct (Master_validate_bounds kw m Hv) as [Hr Hc].
    apply Master_validate_fields in Hv as (_ & _ & Hs & Hr' & Hc').
    split; [done|]. split; [done|]. repeat split.
    + intros Hnone. rewrite Hnone in Hr'. by inversion Hr'.
    + intros Hnone. rewrite Hnone in Hc'. by inversion Hc'.
    + intros Hnone. rewrite (list_field_absent _ _ _ Hnone) in Hs.
      by inversion Hs.
  - intros v x Hkw Hv Hnan Hout. apply Hreported.
    destruct (Master_validate_rejects kw "rating") as (fields & Hrej & Hin).
    { do 7 right. left. split; [done|]. rewrite Hkw. cbn [defaulted].
      apply (rating_conv_None v x Hv). by apply outside_fails. }
    cbn [report]. by rewrite Hrej.
  - intros v z Hkw Hv Hneg. apply Hreported.
    destruct (Master_validate_rejects kw "reviews_count") as (fields & Hrej & Hin).
    { do 8 right. split; [done|]. rewrite Hkw. cbn [defaulted].
      by apply (reviews_conv_None v z). }
    cbn [report]. by rewrite Hrej.
  - apply seed_sample_ratings.
  - intros rs conn plan. apply run_masters_ok, fresh_masters_ok.
Qed.

(** C3. The claim fails on two bodies that the endpoint can receive.  A
    rating of infinity is out of range and is refused, but the report
    quotes the offending value and cannot be written, so the caller gets
    a server error that names no field.  A rating of NaN is out of range
    and is not refused at all: the master is written to the store.  What
    does hold: any other request that violates a declared shape constraint
    (a missing required field, a malformed address, a value out of range)
    is refused with the offending field in the report, and the store is
    exactly as before: no gateway call was made; the answer is
    [InvalidInput] with that report whenever the report can be written,
    which is always so for a query and for a body that holds no NaN and
    no infinity.  In particular a master whose email is "not-an-email",
    which the address format rejects, is not written. *)
Theorem invalid_request_report_may_not_be_written `{Runtime} (st : store) :
  (violates (POST_masters inf_body) "rating"
   ∧ serve (POST_masters inf_body) st = (Err (InternalError ValueError), st))
  ∧ (violates (POST_masters nan_body) "rating"
     ∧ (connected st = true → true ∉ take 1 (write_plan st) →
        (serve (POST_masters nan_body) st).1
        = Ok (CreatedR (oid_str (next_oid st)))
        ∧ oplog (serve (POST_masters nan_body) st).2
          = oplog st ++ [(Insert "master" (Master.dump nan_master), None)]))
  ∧ (∀ r name, violates r name → (name = "rating" → ¬ nan_rating r) →
     name ∈ report r ∧ serve r st = (Err (rejection r), st))
  ∧ (∀ q, rejection (GET_masters q) = InvalidInput (report (GET_masters q))
          ∧ rejection (GET_bookings q) = InvalidInput (report (GET_bookings q)))
  ∧ (∀ body, finite_doc body = true →
     rejection (POST_masters body) = InvalidInput (report (POST_masters body))
     ∧ rejection (POST_bookings body)
       = InvalidInput (report (POST_bookings body)))
  ∧ (EmailStr "not-an-email" = None →
     ∀ body,
       let r := POST_masters (<["email" := VStr "not-an-email"]> body) in
       "email" ∈ report r
       ∧ serve r st = (Err (rejection r), st)
       ∧ (finite_doc body = true → rejection r = InvalidInput (report r))).
Proof.
  assert (Hall : ∀ r name, violates r name → (name = "rating" → ¬ nan_rating r) →
     name ∈ report r ∧ serve r st = (Err (rejection r), st)).
  { intros r name Hbad Hnan.
    pose proof (violation_is_reported r name Hbad Hnan) as Hin.
    split; [done|]. by apply (reported_is_rejected r name). }
  split; [|split; [|split; [|split; [|split]]]].
  - split; [|apply serve_inf_body].
    apply (master_rating_out_of_range _ (VFloat (S754_infinity false))
             (S754_infinity false)); [done|done|]. by intros [_ Hhi].
  - split.
    + apply (master_rating_out_of_range _ (VFloat S754_nan) S754_nan);
        [done|done|]. by apply nan_is_not_between.
    + intros Hc Hplan.
      by destruct (create_master_stored nan_body nan_master st validate_nan_body
                     Hc Hplan) as (Hr & _ & _ & Hlog).
  - exact Hall.
  - done.
  - intros body Hd.
    split; [apply (writable_finite_body (POST_masters body))
           |apply (writable_finite_body (POST_bookings body))]; done.
  - intros Hbad body r.
    destruct (Hall r "email") as [Hin Hserve]; [|done|].
    { apply (master_email_malformed _ "not-an-email"); [|done].
      by rewrite lookup_insert_eq. }
    split; [done|]. split; [done|]. intros Hd.
    apply (writable_finite_body r). by apply finite_doc_insert.
Qed.

(** C1. For a valid booking request, against a connected store that
    takes the next two writes, [create_booking] first inserts the client
    built from the request's name and email, then inserts the booking
    whose [client_id] is the identifier that insert returned, whose
    [service_id] is "unknown" and whose status is "pending", and answers
    with the booking's identifier and the status "pending". *)
Theorem create_booking_inserts_client_then_booking `{Runtime}
    (kw : doc) (req : BookingRequest.t) (st : store) :
  BookingRequest.validate kw = Ok req →
  connected st = true →
  true ∉ take 2 (write_plan st) →
  let client_id := oid_str (next_oid st) in
  let booking_id := oid_str (N.succ (next_oid st)) in
  let client := Client.dump (client_of req) in
  let booking := Booking.dump (booking_of req client_id) in
  let r := serve (POST_bookings kw) st in
  r.1 = Ok (BookingR {| BookingOut.id := booking_id;
                        BookingOut.status := "pending" |})
  ∧ oplog r.2
    = oplog st ++ [(Insert "client" client, None);
                   (Insert "booking" booking, None)]
  ∧ collection r.2 "client"
    = collection st "client" ++ [<["_id" := VObjectId (next_oid st)]> client]
  ∧ collection r.2 "booking"
    = collection st "booking"
      ++ [<["_id" := VObjectId (N.succ (next_oid st))]> booking]
  ∧ client !! "name" = Some (VStr (BookingRequest.name req))
  ∧ client !! "email" = Some (VStr (BookingRequest.email req))
  ∧ booking !! "master_id" = Some (VStr (BookingRequest.master_id req))
  ∧ booking !! "client_id" = Some (VStr client_id)
  ∧ booking !! "service_id" = Some (VStr "unknown")
  ∧ booking !! "status" = Some (VStr "pending").
Proof.
  intros Hv Hc Hplan client_id booking_id client booking r.
  assert (H1 : true ∉ take 1 (write_plan st)).
  { intros Hin. apply Hplan.
    destruct (write_plan st) as [|a [|b plan]]; cbn in *; [done|done|].
    apply list_elem_of_singleton in Hin as <-. apply list_elem_of_here. }
  assert (H2 : true ∉ take 1 (tail (write_plan st))).
  { intros Hin. apply Hplan.
    destruct (write_plan st) as [|a [|b plan]]; cbn in *;
      [by apply elem_of_nil in Hin|by apply elem_of_nil in Hin|].
    apply list_elem_of_singleton in Hin as <-.
    apply list_elem_of_further, list_elem_of_here. }
  destruct (create_document_Ok "client" client st Hc H1)
    as (R1 & C1 & O1 & L1 & Hc1 & P1 & N1).
  pose proof (create_document_Ok "booking" booking
                (create_document "client" client st).2 Hc1) as Hsecond.
  rewrite P1, N1 in Hsecond.
  destruct (Hsecond H2) as (R2 & C2 & O2 & L2 & _).
  assert (Hrun : r = (Ok (BookingR {| BookingOut.id := booking_id;
                                      BookingOut.status := "pending" |}),
                      (create_document "booking" booking
                         (create_document "client" client st).2).2)).
  { unfold r. simpl. unfold validated_body. rewrite Hv. unfold respond.
    rewrite (create_booking_run req st (BookingRequest_validate_email kw req Hv)).
    fold client.
    destruct (create_document "client" client st) as [r1 st1]. simpl in *.
    subst r1. fold client_id. fold booking.
    destruct (create_document "booking" booking st1) as [r2 st2]. simpl in *.
    by subst r2. }
  rewrite Hrun. simpl.
  split; [done|]. split; [by rewrite L2, L1, <- app_assoc|].
  split; [by rewrite O2, C1|]. split; [by rewrite C2, O1|].
  by repeat split.
Qed.

Lemma create_booking_inserts_client_then_booking_witness :
  (@serve sample_runtime
     (POST_bookings {[ "master_id" := VStr "abc123";
                       "name" := VStr "Jane Doe";
                       "email" := VStr "jane@example.com";
                       "datetime_utc" := VDatetime 1717236000 ]})
     (fresh true [])).1
  = Ok (BookingR {| BookingOut.id := "1"; BookingOut.status := "pending" |}).
Proof.
  apply (@create_booking_inserts_client_then_booking sample_runtime
           {[ "master_id" := VStr "abc123";
              "name" := VStr "Jane Doe";
              "email" := VStr "jane@example.com";
              "datetime_utc" := VDatetime 1717236000 ]}
           {| BookingRequest.master_id := "abc123";
              BookingRequest.name := "Jane Doe";
              BookingRequest.email := "jane@example.com";
              BookingRequest.datetime_utc := 1717236000;
              BookingRequest.notes := None |}
           (fresh true []));
    [reflexivity | reflexivity | vm_compute; by apply not_elem_of_nil].
Defined.

(** C8. When the client insert of a booking request goes through and the
    booking insert fails, the caller gets one [InternalError] carrying
    that failure, the client record stays in the store, no booking is
    stored and no further gateway call is made.  In every endpoint a
    gateway call that fails comes back as the [InternalError] of that
    failure. *)
Theorem booking_insert_failure_leaves_the_client `{Runtime}
    (kw : doc) (req : BookingRequest.t) (st : store) (plan : list bool) :
  BookingRequest.validate kw = Ok req →
  connected st = true →
  write_plan st = false :: true :: plan →
  let client := Client.dump (client_of req) in
  let booking := Booking.dump (booking_of req (oid_str (next_oid st))) in
  let r := serve (POST_bookings kw) st in
  r.1 = Err (InternalError StoreWriteError)
  ∧ collection r.2 "client"
    = collection st "client" ++ [<["_id" := VObjectId (next_oid st)]> client]
  ∧ collection r.2 "booking" = collection st "booking"
  ∧ oplog r.2
    = oplog st ++ [(Insert "client" client, None);
                   (Insert "booking" booking, Some StoreWriteError)]
  ∧ ∀ r' st' c e,
      (c, Some e) ∈ new_calls r' st' → (serve r' st').1 = Err (InternalError e).
Proof.
  intros Hv Hc Hplan client booking r.
  assert (H1 : true ∉ take 1 (write_plan st)).
  { rewrite Hplan. cbn. by intros Hin%list_elem_of_singleton. }
  destruct (create_document_Ok "client" client st Hc H1)
    as (R1 & C1 & O1 & L1 & Hc1 & P1 & N1).
  rewrite Hplan in P1. simpl in P1.
  pose proof (create_document_writes_failed "booking" booking _ plan Hc1 P1)
    as Hsecond.
  assert (Hrun : r = (Err (InternalError StoreWriteError),
                      (create_document "booking" booking
                         (create_document "client" client st).2).2)).
  { unfold r. simpl. unfold validated_body. rewrite Hv. unfold respond.
    rewrite (create_booking_run req st (BookingRequest_validate_email kw req Hv)).
    fold client.
    destruct (create_document "client" client st) as [r1 st1]. simpl in *.
    subst r1. fold booking. by rewrite Hsecond. }
  rewrite Hrun, Hsecond. simpl.
  split; [done|].
  split; [by rewrite collection_log, collection_set_write_plan|].
  split; [by rewrite collection_log, collection_set_write_plan, O1|].
  split; [by rewrite L1, <- app_assoc|].
  intros r' st' c e Hin.
  destruct (surfaces_serve r' st') as (new & Hlog & Hfail).
  rewrite (new_calls_of r' st' new Hlog) in Hin. by apply (Hfail c).
Qed.

Lemma booking_insert_failure_leaves_the_client_witness :
  (@serve sample_runtime
     (POST_bookings {[ "master_id" := VStr "abc123";
                       "name" := VStr "Jane Doe";
                       "email" := VStr "jane@example.com";
                       "datetime_utc" := VDatetime 1717236000 ]})
     (fresh true [false; true])).1
  = Err (InternalError StoreWriteError).
Proof.
  apply (@booking_insert_failure_leaves_the_client sample_runtime
           {[ "master_id" := VStr "abc123";
              "name" := VStr "Jane Doe";
              "email" := VStr "jane@example.com";
              "datetime_utc" := VDatetime 1717236000 ]}
           {| BookingRequest.master_id := "abc123";
              BookingRequest.name := "Jane Doe";
              BookingRequest.email := "jane@example.com";
              BookingRequest.datetime_utc := 1717236000;
              BookingRequest.notes := None |}
           (fresh true [false; true]) []);
    reflexivity.
Defined.

(** C4. With a non-empty [city], [list_masters] returns only summaries
    whose city is exactly that text, built from documents whose [city]
    field is exactly that text.  Without the parameter it serializes the
    first [limit] documents of the collection, whatever their city, and
    never returns more than [limit] summaries. *)
Theorem city_filter_is_exact `{Runtime} (limit : Z) (st : store) :
  (∀ c outs st', c ≠ "" →
     list_masters (Some c) limit st = (Ok outs, st') →
     Forall (λ o, MasterOut.city o = Some c) outs)
  ∧ (∀ c docs st',
     get_documents "master" {[ "city" := VStr c ]} limit st = (Ok docs, st') →
     Forall (λ d, d !! "city" = Some (VStr c)) docs)
  ∧ (connected st = true →
     list_masters None limit st
     = (match mapM _serialize_master
                (take (Z.to_nat limit) (collection st "master")) with
        | Ok outs => Ok outs
        | Err e => Err (InternalError e)
        end,
        log (Find "master" ∅ limit) None st))
  ∧ (∀ city outs st',
     list_masters city limit st = (Ok outs, st') →
     (length outs ≤ Z.to_nat limit)%nat).
Proof.
  split; [|split; [|split]].
  - intros c outs st' Hc. rewrite list_masters_run.
    assert (Hflt : filter_on "city" (Some c) = {[ "city" := VStr c ]}).
    { unfold filter_on, truthy. by rewrite (bool_decide_eq_false_2 _ Hc). }
    rewrite Hflt. cbv zeta.
    destruct (connected st); [|done].
    destruct (mapM _ _) as [outs'|] eqn:Hm; [|done].
    intros [= <- <-]. apply mapM_result_Forall2 in Hm.
    eapply Forall2_Forall_r; [exact Hm|].
    apply Forall_forall. intros d Hd o Ho.
    apply subseteq_take, list_elem_of_filter in Hd as [Hd _].
    pose proof (matches_singleton "city" c d (proj1 (Is_true_true _) Hd))
      as Hcity.
    apply serialize_city_verified in Ho as [Ho _].
    unfold get in Ho. rewrite Hcity in Ho. simpl in Ho. by inversion Ho.
  - intros c docs st'. unfold get_documents.
    destruct (connected st); cbn [negb]; [|done].
    intros [= <- <-]. apply Forall_forall. intros d Hd.
    apply subseteq_take, list_elem_of_filter in Hd as [Hd _].
    exact (matches_singleton "city" c d (proj1 (Is_true_true _) Hd)).
  - intros Hc. rewrite list_masters_run. cbv zeta. rewrite Hc.
    change (filter_on "city" None) with (∅ : doc).
    by rewrite filter_matches_empty.
  - intros city outs st'. rewrite list_masters_run. cbv zeta.
    destruct (connected st); [|done].
    destruct (mapM _ _) as [outs'|] eqn:Hm; [|done].
    intros [= <- <-]. apply mapM_result_Forall2, Forall2_length in Hm.
    rewrite <- Hm, length_take. lia.
Qed.

Lemma city_filter_is_exact_witness :
  ∃ outs,
    Forall (λ o, MasterOut.city o = Some "Казань") outs ∧ length outs = 1%nat.
Proof.
  eexists. split.
  - apply (proj1 (@city_filter_is_exact sample_runtime 1
                    (@run sample_runtime two_masters (fresh true [])))
             "Казань" _
             (@list_masters sample_runtime (Some "Казань") 1
                (@run sample_runtime two_masters (fresh true []))).2);
      [discriminate | vm_compute; reflexivity].
  - reflexivity.
Defined.

(** C7. Whenever a stored master is given a summary, the role of the
    summary is the first of the master's skills, and there is no role
    when the master has no skills.  Serializing never fails on an empty
    list: the role of a stored master always evaluates, to its first
    skill or to none; no document makes [_serialize_master] raise an
    [IndexError]; a document whose skills are empty, null or missing gets
    no role, and one whose skills start with a text gets that text.  A
    stored master without avatar always has a summary.  On a store this
    system filled, every summary that [list_masters] returns has the first
    skill of a stored master as role. *)
Theorem role_is_first_skill `{Runtime} :
  (∀ m oid o,
     _serialize_master (<["_id" := VObjectId oid]> (Master.dump m)) = Ok o →
     MasterOut.role o = head (Master.skills m)
     ∧ (Master.skills m = [] → MasterOut.role o = None))
  ∧ (∀ m oid,
     index0 (or_else (get (<["_id" := VObjectId oid]> (Master.dump m)) "skills")
               (VList [VNone]))
     = Ok (opt_str (head (Master.skills m))))
  ∧ (∀ m oid, Master.avatar m = None →
     _serialize_master (<["_id" := VObjectId oid]> (Master.dump m))
     = Ok (summary_of m oid))
  ∧ (∀ d, _serialize_master d ≠ Err IndexError)
  ∧ (∀ d o, truthy (get d "skills") = false →
     _serialize_master d = Ok o → MasterOut.role o = None)
  ∧ (∀ d o s l, get d "skills" = VList (VStr s :: l) →
     _serialize_master d = Ok o → MasterOut.role o = Some s)
  ∧ (∀ rs conn plan city limit outs st',
     list_masters city limit (run rs (fresh conn plan)) = (Ok outs, st') →
     Forall (λ o, ∃ m oid,
               <["_id" := VObjectId oid]> (Master.dump m)
                 ∈ collection (run rs (fresh conn plan)) "master"
               ∧ MasterOut.role o = head (Master.skills m)) outs).
Proof.
  split; [|split; [|split; [|split; [|split; [|split]]]]].
  - intros m oid o Ho. apply serialize_stored_master_Ok in Ho as [_ ->].
    split; [done|]. simpl. by intros ->.
  - intros m oid.
    destruct m as [name email phone city bio avatar skills rating count].
    by destruct skills.
  - intros m oid Hm. by rewrite serialize_stored_master, Hm.
  - intros d. unfold _serialize_master.
    destruct (index0 _) as [role|e] eqn:Hrole.
    + cbn [mbind result_bind].
      destruct (float _) as [rating|e] eqn:Hfloat; cbn [mbind result_bind].
      2: { intros [= ->]. by apply float_no_IndexError in Hfloat. }
      destruct (int _) as [count|e] eqn:Hint; cbn [mbind result_bind].
      2: { intros [= ->]. by apply int_no_IndexError in Hint. }
      unfold construct. by destruct (MasterOut.validate _).
    + simpl. intros [= ->]. unfold or_else in Hrole.
      destruct (truthy (get d "skills")) eqn:Ht; [|done].
      destruct (get d "skills") as [| | | |s|[|v l]| | |]; simpl in *; try done.
      by destruct (bool_decide (s = "")).
  - intros d o Hfalse. unfold _serialize_master, or_else. rewrite Hfalse.
    cbn [index0 mbind result_bind].
    destruct (float _) as [rating|]; [|done]. cbn [mbind result_bind].
    destruct (int _) as [count|]; [|done]. cbn [mbind result_bind].
    unfold construct.
    destruct (MasterOut.validate _) as [o'|] eqn:Hv; [|done].
    intros [= ->]. unfold MasterOut.validate in Hv. vap_inv Hv. simpl.
    match goal with
    | Hf : field _ "role" _ = Ok _ |- _ =>
        apply field_Ok_inv in Hf; kw_lookup_in Hf; simpl in Hf; by inversion Hf
    end.
  - intros d o s l Hskills. unfold _serialize_master, or_else.
    rewrite Hskills. cbn [truthy index0 negb].
    rewrite bool_decide_eq_false_2 by done.
    cbn [negb index0 mbind result_bind].
    destruct (float _) as [rating|]; [|done]. cbn [mbind result_bind].
    destruct (int _) as [count|]; [|done]. cbn [mbind result_bind].
    unfold construct.
    destruct (MasterOut.validate _) as [o'|] eqn:Hv; [|done].
    intros [= ->]. unfold MasterOut.validate in Hv. vap_inv Hv. simpl.
    match goal with
    | Hf : field _ "role" _ = Ok _ |- _ =>
        apply field_Ok_inv in Hf; kw_lookup_in Hf; simpl in Hf; by inversion Hf
    end.
  - intros rs conn plan city limit outs st' Hrun.
    eapply Forall_impl.
    + eapply list_masters_summaries; [|exact Hrun].
      apply run_masters_ok, fresh_masters_ok.
    + intros o (m & oid & Hin & ->). by exists m, oid.
Qed.

Lemma role_is_first_skill_witness :
  ∃ outs,
    Forall (λ o, ∃ m oid,
              <["_id" := VObjectId oid]> (Master.dump m)
                ∈ collection (@run sample_runtime two_masters (fresh true []))
                    "master"
              ∧ MasterOut.role o = head (Master.skills m)) outs
    ∧ MasterOut.role <$> outs = [Some "Парикмахер-стилист"; None].
Proof.
  eexists. split.
  - apply (proj2 (proj2 (proj2 (proj2 (proj2 (proj2
             (@role_is_first_skill sample_runtime))))))
             two_masters true [] None 2 _
             (@list_masters sample_runtime None 2
                (@run sample_runtime two_masters (fresh true []))).2).
    vm_compute. reflexivity.
  - reflexivity.
Defined.

(** C10. Whatever requests this system served since it started, every
    summary that [list_masters] returns has [verified] false: no master
    it stores carries a [verified] field. *)
Theorem created_masters_are_unverified `{Runtime}
    (rs : list request) (conn : bool) (plan : list bool) :
  (∀ city limit outs st',
     list_masters city limit (run rs (fresh conn plan)) = (Ok outs, st') →
     Forall (λ o, MasterOut.verified o = false) outs)
  ∧ (∀ q outs st',
     serve (GET_masters q) (run rs (fresh conn plan)) = (Ok (MastersR outs), st') →
     Forall (λ o, MasterOut.verified o = false) outs)
  ∧ (∀ d, d ∈ collection (run rs (fresh conn plan)) "master" →
     d !! "verified" = None)
  ∧ (∀ m, Master.dump m !! "verified" = None).
Proof.
  assert (Hlist : ∀ city limit outs st',
     list_masters city limit (run rs (fresh conn plan)) = (Ok outs, st') →
     Forall (λ o, MasterOut.verified o = false) outs).
  { intros city limit outs st' Hrun. eapply Forall_impl.
    - eapply list_masters_summaries; [|exact Hrun].
      apply run_masters_ok, fresh_masters_ok.
    - by intros o (m & oid & _ & ->). }
  split; [exact Hlist|]. split; [|split].
  - intros q outs st'. simpl. unfold validated.
    destruct (masters_query q) as [p|]; [|done]. unfold respond.
    destruct (list_masters p.1 p.2 _) as [[outs'|e] st1] eqn:Hrun; [|done].
    intros [= <- <-]. by apply (Hlist p.1 p.2 outs' st1).
  - intros d Hd.
    pose proof (run_masters_ok rs _ (fresh_masters_ok conn plan)) as Hok.
    by destruct (proj1 (Forall_forall _ _) Hok d Hd) as (m & oid & _ & ->).
  - done.
Qed.

Lemma created_masters_are_unverified_witness :
  ∃ outs,
    Forall (λ o, MasterOut.verified o = false) outs ∧ length outs = 2%nat.
Proof.
  eexists. split.
  - apply (proj1 (@created_masters_are_unverified sample_runtime
                    two_masters true [])
             None 12 _
             (@list_masters sample_runtime None 12
                (@run sample_runtime two_masters (fresh true []))).2).
    vm_compute. reflexivity.
  - reflexivity.
Defined.

(** * Further properties of the shapes *)






(** A reported field is one whose own conversion failed. *)
Lemma field_errors_inv {A} (kw : doc) (name x : string)
    (conv : option value → option A) :
  x ∈ errors_of (field kw name conv) → x = name ∧ conv (kw !! name) = None.
Proof.
  unfold field. destruct (conv (kw !! name)); simpl; intros Hin.
  - by apply elem_of_nil in Hin.
  - by apply list_elem_of_singleton in Hin.
Qed.

Lemma ge_int_Some (lo z z' : Z) : ge_int lo z = Some z' → z' = z ∧ lo ≤ z.
Proof.
  unfold ge_int. intros [-> Hc]%check_Some.
  by apply bool_decide_eq_true in Hc.
Qed.

Lemma le_int_Some (hi z z' : Z) : le_int hi z = Some z' → z' = z ∧ z ≤ hi.
Proof.
  unfold le_int. intros [-> Hc]%check_Some.
  by apply bool_decide_eq_true in Hc.
Qed.

(** Splits a successful validation into the conversions of its fields. *)
Ltac fields_of H :=
  vap_inv H;
  repeat match goal with
  | Hf : field _ _ _ = Ok _ |- _ => apply field_Ok_inv in Hf
  end.

Section shape_facts.
Context `{Runtime}.

Lemma int_between_Some (lo hi : Z) (v : value) (z : Z) :
  (as_int v ≫= ge_int lo) ≫= le_int hi = Some z →
  as_int v = Some z ∧ lo ≤ z ≤ hi.
Proof.
  destruct (as_int v) as [z0|]; simpl; [|done].
  destruct (ge_int lo z0) as [z1|] eqn:H1; simpl; [|done].
  apply ge_int_Some in H1 as [-> H1]. intros [-> H2]%le_int_Some. by repeat split.
Qed.

Lemma int_between_None (lo hi : Z) (v : value) (z : Z) :
  as_int v = Some z → ¬ (lo ≤ z ≤ hi) →
  (as_int v ≫= ge_int lo) ≫= le_int hi = None.
Proof.
  intros -> Hout. simpl. unfold ge_int, le_int, check.
  destruct (bool_decide (lo ≤ z)) eqn:H1; simpl; [|done].
  destruct (bool_decide (z ≤ hi)) eqn:H2; simpl; [|done].
  apply bool_decide_eq_true in H1, H2. lia.
Qed.
End shape_facts.

(** X1. A [Booking] that validation accepts has one of the four statuses
    pending, confirmed, completed and cancelled; without a status it is
    pending; any other status is rejected under [status]. *)
Theorem booking_status_is_one_of_four `{Runtime} (kw : doc) :
  (∀ b, Booking.validate kw = Ok b →
     Booking.status b ∈ ["pending"; "confirmed"; "completed"; "cancelled"]
     ∧ (kw !! "status" = None → Booking.status b = "pending")
     ∧ (∀ s, kw !! "status" = Some (VStr s) → Booking.status b = s))
  ∧ (∀ v, kw !! "status" = Some v →
     (∀ s, v = VStr s →
        s ∉ ["pending"; "confirmed"; "completed"; "cancelled"]) →
     ∃ fields, Booking.validate kw = Err fields ∧ "status" ∈ fields).
Proof.
  split.
  - intros b Hv. unfold Booking.validate in Hv. fields_of Hv. simpl.
    match goal with
    | Hs : defaulted "pending" _ _ = Some _ |- _ => rename Hs into Hstatus
    end.
    destruct (kw !! "status") as [v|]; simpl in Hstatus.
    + unfold as_literal in Hstatus. destruct v; simpl in Hstatus; try done.
      apply check_Some in Hstatus as [-> Hin].
      apply bool_decide_eq_true in Hin.
      split; [done|]. split; [done|]. by intros s' [= ->].
    + inversion Hstatus. split; [|by split].
      apply list_elem_of_here.
  - intros v Hkw Hbad. apply errors_nonempty.
    unfold Booking.validate. rewrite !vap_errors, !elem_of_app.
    left. right. rewrite field_errors; [apply list_elem_of_here|].
    rewrite Hkw. simpl. unfold as_literal.
    destruct v; simpl; try done.
    apply check_false, bool_decide_eq_false. by apply Hbad.
Qed.

Lemma booking_status_is_one_of_four_witness :
  ∃ fields,
    @Booking.validate sample_runtime
      {[ "master_id" := VStr "m"; "client_id" := VStr "c";
         "service_id" := VStr "s"; "datetime_utc" := VDatetime 0;
         "status" := VStr "done" ]} = Err fields
    ∧ "status" ∈ fields.
Proof.
  apply (proj2 (@booking_status_is_one_of_four sample_runtime _) (VStr "done"));
    [reflexivity|].
  intros s [= <-]. apply (bool_decide_unpack _). by vm_compute.
Defined.

(** Closes a rejection goal from the failed conversion [Hb] of one field. *)
Ltac reject_with Hb :=
  apply errors_nonempty; rewrite !vap_errors; rewrite (field_errors _ _ _ Hb);
  rewrite !elem_of_app; rewrite list_elem_of_singleton; tauto.

(** X2. A [Client] that validation accepts carries the name it was
    given, and its address is the normal form of the address it was
    given, which is itself a well-formed address; a missing or malformed
    address is rejected under [email], a missing name under [name]. *)
Theorem client_needs_a_valid_email `{Runtime} (kw : doc) :
  (∀ c, Client.validate kw = Ok c →
     kw !! "name" = Some (VStr (Client.name c))
     ∧ ∃ e, kw !! "email" = Some (VStr e)
         ∧ EmailStr e = Some (Client.email c)
         ∧ EmailStr (Client.email c) = Some (Client.email c))
  ∧ (kw !! "email" = None →
     ∃ fields, Client.validate kw = Err fields ∧ "email" ∈ fields)
  ∧ (∀ e, kw !! "email" = Some (VStr e) → EmailStr e = None →
     ∃ fields, Client.validate kw = Err fields ∧ "email" ∈ fields)
  ∧ (kw !! "name" = None →
     ∃ fields, Client.validate kw = Err fields ∧ "name" ∈ fields).
Proof.
  split; [|split; [|split]].
  - intros c Hv. unfold Client.validate in Hv. fields_of Hv. simpl.
    repeat match goal with
    | Hf : required _ (kw !! ?k) = Some _ |- _ =>
        destruct (kw !! k) as [[]|]; simpl in Hf; try done
    end.
    match goal with Hf : Some _ = Some _ |- _ => inversion Hf; subst end.
    match goal with Hf : as_EmailStr (VStr ?e) = Some ?a |- _ =>
      change (EmailStr e = Some a) in Hf; pose proof (EmailStr_normal _ _ Hf)
    end.
    split; [done|]. by eexists.
  - intros Hkw. unfold Client.validate.
    assert (Hb : required as_EmailStr (kw !! "email") = None) by by rewrite Hkw.
    reject_with Hb.
  - intros e Hkw He. unfold Client.validate.
    assert (Hb : required as_EmailStr (kw !! "email") = None).
    { rewrite Hkw. simpl. by unfold as_EmailStr. }
    reject_with Hb.
  - intros Hkw. unfold Client.validate.
    assert (Hb : required as_str (kw !! "name") = None) by by rewrite Hkw.
    reject_with Hb.
Qed.

Lemma client_needs_a_valid_email_witness :
  ∃ fields,
    @Client.validate sample_runtime
      {[ "name" := VStr "Jane"; "email" := VStr "jane.example.com" ]}
      = Err fields
    ∧ "email" ∈ fields.
Proof.
  apply (proj1 (proj2 (proj2 (@client_needs_a_valid_email sample_runtime _)))
           "jane.example.com");
    reflexivity.
Defined.

(** X3. A [Service] that validation accepts has a duration between 10
    and 480 minutes and a price that is at least 0 or is NaN: a price of
    NaN is not reported, since NaN does not compare below 0.  Any other
    price that is not at least 0, a duration outside its range, or a
    missing price or duration is rejected under the field's name. *)
Theorem service_price_and_duration_bounds `{Runtime} (kw : doc) :
  (∀ s, Service.validate kw = Ok s →
     (is_nan (Service.price s) = true
      ∨ SFleb (double 0) (Service.price s) = true)
     ∧ 10 ≤ Service.duration_min s ≤ 480)
  ∧ (∀ v, kw !! "price" = Some v → as_float v = Some S754_nan →
     "price" ∉ errors_of (Service.validate kw))
  ∧ (∀ v x, kw !! "price" = Some v → as_float v = Some x →
     is_nan x = false → SFleb (double 0) x = false →
     ∃ fields, Service.validate kw = Err fields ∧ "price" ∈ fields)
  ∧ (∀ v z, kw !! "duration_min" = Some v → as_int v = Some z →
     ¬ (10 ≤ z ≤ 480) →
     ∃ fields, Service.validate kw = Err fields ∧ "duration_min" ∈ fields)
  ∧ (kw !! "price" = None →
     ∃ fields, Service.validate kw = Err fields ∧ "price" ∈ fields)
  ∧ (kw !! "duration_min" = None →
     ∃ fields, Service.validate kw = Err fields ∧ "duration_min" ∈ fields).
Proof.
  split; [|split; [|split; [|split; [|split]]]].
  - intros s Hv. unfold Service.validate in Hv. fields_of Hv. simpl.
    split.
    + match goal with
      | Hf : required _ (kw !! "price") = Some _ |- _ =>
          destruct (kw !! "price") as [v|]; cbn [required] in Hf; [|done];
          destruct (as_float v) as [price|]; cbn [mbind option_bind] in Hf;
            [|done];
          apply ge_float_Some in Hf as [-> Hlo];
          destruct (is_nan price) eqn:Hnan; [by left|right];
          by apply not_below_is_above
      end.
    + match goal with
      | Hf : required _ (kw !! "duration_min") = Some _ |- _ =>
          destruct (kw !! "duration_min") as [v|]; simpl in Hf; [|done];
          by apply int_between_Some in Hf as [_ ?]
      end.
  - intros v Hkw Hv Hin. unfold Service.validate in Hin.
    rewrite !vap_errors, !elem_of_app in Hin.
    repeat match type of Hin with
    | _ ∨ _ => destruct Hin as [Hin|Hin]
    end;
      first [ by apply elem_of_nil in Hin
            | apply field_errors_inv in Hin as [Heq Hconv];
              first [ discriminate Heq
                    | rewrite Hkw in Hconv; cbn [required] in Hconv;
                      rewrite Hv in Hconv; discriminate Hconv ] ].
  - intros v x Hkw Hv Hnan Hneg. unfold Service.validate.
    assert (Hb : required (λ v, as_float v ≫= ge_float 0) (kw !! "price") = None).
    { rewrite Hkw. cbn [required]. rewrite Hv. cbn [mbind option_bind].
      apply check_false. by rewrite (not_above_is_below x (double 0)). }
    reject_with Hb.
  - intros v z Hkw Hv Hout. unfold Service.validate.
    assert (Hb : required (λ v, (as_int v ≫= ge_int 10) ≫= le_int 480)
                   (kw !! "duration_min") = None).
    { rewrite Hkw. simpl. by apply (int_between_None _ _ v z). }
    reject_with Hb.
  - intros Hkw. unfold Service.validate.
    assert (Hb : required (λ v, as_float v ≫= ge_float 0) (kw !! "price") = None)
      by by rewrite Hkw.
    reject_with Hb.
  - intros Hkw. unfold Service.validate.
    assert (Hb : required (λ v, (as_int v ≫= ge_int 10) ≫= le_int 480)
                   (kw !! "duration_min") = None) by by rewrite Hkw.
    reject_with Hb.
Qed.

Lemma service_price_and_duration_bounds_witness :
  ∃ fields,
    @Service.validate sample_runtime
      {[ "title" := VStr "Cut"; "category" := VStr "Hair";
         "price" := VInt 30; "duration_min" := VInt 5 ]} = Err fields
    ∧ "duration_min" ∈ fields.
Proof.
  apply (proj1 (proj2 (proj2 (proj2
           (@service_price_and_duration_bounds sample_runtime _)))) (VInt 5) 5);
    [reflexivity | reflexivity | lia].
Defined.

(** X4. A [Review] that validation accepts has a rating between 1 and 5;
    a rating outside that range, or none, is rejected under [rating]. *)
Theorem review_rating_bounds `{Runtime} (kw : doc) :
  (∀ r, Review.validate kw = Ok r → 1 ≤ Review.rating r ≤ 5)
  ∧ (∀ v z, kw !! "rating" = Some v → as_int v = Some z → ¬ (1 ≤ z ≤ 5) →
     ∃ fields, Review.validate kw = Err fields ∧ "rating" ∈ fields)
  ∧ (kw !! "rating" = None →
     ∃ fields, Review.validate kw = Err fields ∧ "rating" ∈ fields).
Proof.
  split; [|split].
  - intros r Hv. unfold Review.validate in Hv. fields_of Hv. simpl.
    match goal with
    | Hf : required _ (kw !! "rating") = Some _ |- _ =>
        destruct (kw !! "rating") as [v|]; simpl in Hf; [|done];
        by apply int_between_Some in Hf as [_ ?]
    end.
  - intros v z Hkw Hv Hout. unfold Review.validate.
    assert (Hb : required (λ v, (as_int v ≫= ge_int 1) ≫= le_int 5)
                   (kw !! "rating") = None).
    { rewrite Hkw. simpl. by apply (int_between_None _ _ v z). }
    reject_with Hb.
  - intros Hkw. unfold Review.validate.
    assert (Hb : required (λ v, (as_int v ≫= ge_int 1) ≫= le_int 5)
                   (kw !! "rating") = None) by by rewrite Hkw.
    reject_with Hb.
Qed.

Lemma review_rating_bounds_witness :
  ∃ fields,
    @Review.validate sample_runtime
      {[ "master_id" := VStr "m"; "client_id" := VStr "c";
         "rating" := VInt 0 ]} = Err fields
    ∧ "rating" ∈ fields.
Proof.
  apply (proj1 (proj2 (@review_rating_bounds sample_runtime _)) (VInt 0) 0);
    [reflexivity | reflexivity | lia].
Defined.

(** X5. A [Portfolioitem] that validation accepts was given an image
    URL, as a text or as a URL object, and holds the normal form of it;
    it has no tags when none were given.  A missing or malformed image
    URL is rejected under [image_url]. *)
Theorem portfolioitem_needs_an_image_url `{Runtime} (kw : doc) :
  (∀ p, Portfolioitem.validate kw = Ok p →
     (∃ u, (kw !! "image_url" = Some (VStr u)
            ∨ kw !! "image_url" = Some (VUrl u))
         ∧ HttpUrl u = Some (Portfolioitem.image_url p))
     ∧ (kw !! "tags" = None → Portfolioitem.tags p = []))
  ∧ (kw !! "image_url" = None →
     ∃ fields, Portfolioitem.validate kw = Err fields ∧ "image_url" ∈ fields)
  ∧ (∀ u, kw !! "image_url" = Some (VStr u) → HttpUrl u = None →
     ∃ fields, Portfolioitem.validate kw = Err fields ∧ "image_url" ∈ fields).
Proof.
  split; [|split].
  - intros p Hv. unfold Portfolioitem.validate in Hv. fields_of Hv. simpl.
    split.
    + match goal with
      | Hf : required as_HttpUrl _ = Some _ |- _ =>
          destruct (kw !! "image_url") as [[]|]; simpl in Hf; try done;
          eexists; (split; [|exact Hf]); by eauto
      end.
    + intros Hnone.
      match goal with
      | Hf : list_field _ "tags" _ = Ok _ |- _ =>
          rewrite (list_field_absent _ _ _ Hnone) in Hf; by inversion Hf
      end.
  - intros Hkw. unfold Portfolioitem.validate.
    assert (Hb : required as_HttpUrl (kw !! "image_url") = None) by by rewrite Hkw.
    reject_with Hb.
  - intros u Hkw Hu. unfold Portfolioitem.validate.
    assert (Hb : required as_HttpUrl (kw !! "image_url") = None).
    { by rewrite Hkw. }
    reject_with Hb.
Qed.

Lemma portfolioitem_needs_an_image_url_witness :
  ∃ fields,
    @Portfolioitem.validate sample_runtime {[ "master_id" := VStr "m" ]}
      = Err fields
    ∧ "image_url" ∈ fields.
Proof.
  apply (proj1 (proj2 (@portfolioitem_needs_an_image_url sample_runtime _)));
    reflexivity.
Defined.

Lemma finite_doc_insert_fresh (d : doc) (k : string) (v : value) :
  finite v = true → d !! k = None → finite_doc (<[k := v]> d) = finite_doc d.
Proof.
  intros Hv Hk. unfold finite_doc. apply bool_decide_ext.
  rewrite map_Forall_insert by done. tauto.
Qed.

(** The report of a body with one more key, which the report does not
    name, can be written when the report of the body can. *)
Lemma renders_insert (body : doc) (k : string) (v : value)
    (fields : list string) :
  k ∉ fields → finite_doc (<[k := v]> body) = finite_doc body →
  renders (<[k := v]> body) fields = renders body fields.
Proof.
  intros Hk Hd. unfold renders. induction fields as [|name fields IH]; [done|].
  apply not_elem_of_cons in Hk as [Hne Hk]. cbn [forallb].
  rewrite (IH Hk), Hd. by rewrite lookup_insert_ne.
Qed.

Section master_report.
Context `{Runtime}.

(** The report of [Master] names declared fields only. *)
Lemma Master_report_declared (kw : doc) (name : string) :
  name ∈ errors_of (Master.validate kw) →
  name ∈ fname <$> model_fields MasterModel.
Proof.
  unfold Master.validate. rewrite !vap_errors, !elem_of_app. intros Hin.
  repeat match type of Hin with
  | _ ∨ _ => destruct Hin as [Hin|Hin]
  end;
    first [ by apply elem_of_nil in Hin
          | apply field_errors_inv in Hin as [-> _]
          | apply list_field_errors_inv in Hin as [-> _] ];
    apply (bool_decide_unpack _); by vm_compute.
Qed.
End master_report.

(** X6. A key that is no field of [Master] is ignored by validation: the
    body with it and the body without it are accepted alike, or rejected
    alike with the same report, and a body that is accepted is served
    alike.  In particular no request body can set [verified].  A body
    that is rejected is answered alike when the value under the new key
    holds no NaN and no infinity; a value that does can turn the answer
    into a server error, because the report of a missing field quotes
    the whole body. *)
Theorem unknown_master_fields_are_ignored `{Runtime}
    (kw : doc) (k : string) (v : value) (st : store) :
  k ∉ fname <$> model_fields MasterModel →
  Master.validate (<[k := v]> kw) = Master.validate kw
  ∧ report (POST_masters (<[k := v]> kw)) = report (POST_masters kw)
  ∧ (∀ m, Master.validate kw = Ok m →
     serve (POST_masters (<[k := v]> kw)) st = serve (POST_masters kw) st)
  ∧ (finite v = true → kw !! k = None →
     serve (POST_masters (<[k := v]> kw)) st = serve (POST_masters kw) st)
  ∧ (serve (POST_masters ∅) st = (Err (InvalidInput ["name"]), st)
     ∧ serve (POST_masters {[ "verified" := VFloat S754_nan ]}) st
       = (Err (InternalError ValueError), st)).
Proof.
  intros Hk.
  assert (Hv : Master.validate (<[k := v]> kw) = Master.validate kw).
  { cbn in Hk. rewrite !not_elem_of_cons in Hk.
    destruct Hk as (? & ? & ? & ? & ? & ? & ? & ? & ? & _).
    unfold Master.validate, field, list_field.
    by rewrite !lookup_insert_ne by done. }
  split; [done|]. split; [by cbn [report]; rewrite Hv|]. split; [|split].
  - intros m Hm. cbn [serve]. unfold validated_body. by rewrite Hv, Hm.
  - intros Hfin Hnone. cbn [serve]. unfold validated_body. rewrite Hv.
    destruct (Master.validate kw) as [m|fields] eqn:Hm; [done|].
    rewrite renders_insert; [done| |by apply finite_doc_insert_fresh].
    intros Hin. apply Hk, (Master_report_declared kw). by rewrite Hm.
  - by split.
Qed.

Lemma unknown_master_fields_are_ignored_witness :
  @Master.validate sample_runtime
    (<["verified" := VBool true]> {[ "name" := VStr "Anna" ]})
  = @Master.validate sample_runtime {[ "name" := VStr "Anna" ]}.
Proof.
  apply (@unknown_master_fields_are_ignored sample_runtime _ _ _ (fresh true [])).
  apply (bool_decide_unpack _). by vm_compute.
Defined.



(** Shows that the field [name], absent from [kw], is reported. *)
Ltac missing_is_reported kw name Hkw :=
  rewrite !vap_errors; rewrite (field_errors kw name);
  [ rewrite !elem_of_app, list_elem_of_singleton; tauto
  | by rewrite Hkw ].

(** Shows that a field absent from [kw] whose declaration has a default
    is not reported; [Hin] says that it is. *)
Ltac absent_is_not_reported Hkw Hin :=
  rewrite !vap_errors, !elem_of_app in Hin;
  repeat match type of Hin with
  | _ ∨ _ => destruct Hin as [Hin|Hin]
  end;
  first
    [ by apply elem_of_nil in Hin
    | apply field_errors_inv in Hin as [Heq Hconv];
      first [ discriminate Heq | rewrite Hkw in Hconv; discriminate Hconv ]
    | apply list_field_errors_inv in Hin as [Heq Hconv];
      first [ discriminate Heq
            | rewrite Hkw in Hconv; by apply is_Some_None in Hconv ] ].

(** Evaluates the list of names that [Hin] speaks of. *)
Ltac evaluate_names Hin :=
  match type of Hin with
  | ?x ∈ ?l => let l' := eval vm_compute in l in change (x ∈ l') in Hin
  | ?x ∉ ?l => let l' := eval vm_compute in l in change (x ∉ l') in Hin
  end.

Section schema_agreement.
Context `{Runtime}.

Lemma required_field_is_enforced (m : model) (kw : doc) (name : string) :
  name ∈ required_fields (model_json_schema m) → kw !! name = None →
  name ∈ model_errors m kw.
Proof.
  intros Hin Hkw. destruct m; evaluate_names Hin; simpl;
    repeat (apply elem_of_cons in Hin as [->|Hin];
            [ unfold Master.validate, Client.validate, Service.validate,
                Booking.validate, Review.validate, Portfolioitem.validate;
              match goal with
              | |- ?n ∈ _ => missing_is_reported kw n Hkw
              end |]);
    by apply elem_of_nil in Hin.
Qed.

Lemma defaulted_field_may_be_absent (m : model) (kw : doc) (name : string) :
  name ∈ fname <$> model_fields m →
  name ∉ required_fields (model_json_schema m) →
  kw !! name = None → name ∉ model_errors m kw.
Proof.
  intros Hdecl Hopt Hkw Hin.
  destruct m; evaluate_names Hdecl; evaluate_names Hopt; simpl in Hin;
    unfold Master.validate, Client.validate, Service.validate,
      Booking.validate, Review.validate, Portfolioitem.validate in Hin;
    repeat (apply elem_of_cons in Hdecl as [->|Hdecl];
            [ first [ by (exfalso; apply Hopt; apply (bool_decide_unpack _);
                          vm_compute)
                    | absent_is_not_reported Hkw Hin ] |]);
    by apply elem_of_nil in Hdecl.
Qed.
End schema_agreement.

(** X8. The schema endpoint and validation agree on what may be left
    out: a declared field that the arguments lack is reported by the
    model exactly when the model's schema lists it as required. *)
Theorem schema_required_list_agrees_with_validation `{Runtime}
    (m : model) (kw : doc) (name : string) :
  name ∈ fname <$> model_fields m →
  kw !! name = None →
  name ∈ model_errors m kw ↔ name ∈ required_fields (model_json_schema m).
Proof.
  intros Hdecl Hkw. split.
  - intros Hin.
    destruct (decide (name ∈ required_fields (model_json_schema m)))
      as [|Hopt]; [done|].
    by destruct (defaulted_field_may_be_absent m kw name Hdecl Hopt Hkw).
  - intros Hreq. by apply required_field_is_enforced.
Qed.

Lemma schema_required_list_agrees_with_validation_witness :
  "price" ∈ @model_errors sample_runtime ServiceModel ∅.
Proof.
  apply (proj2 (@schema_required_list_agrees_with_validation sample_runtime
                  ServiceModel ∅ "price"
                  ltac:(apply (bool_decide_unpack _); by vm_compute)
                  ltac:(reflexivity))).
  apply (bool_decide_unpack _). by vm_compute.
Defined.

(** * Further properties of the handlers *)

Lemma summary_kwargs_id (v1 v2 v3 v4 v5 v6 v7 v8 : value) :
  ({[ "id" := v1; "name" := v2; "role" := v3; "rating" := v4;
      "reviews_count" := v5; "city" := v6; "avatar" := v7;
      "verified" := v8 ]} : doc) !! "id" = Some v1.
Proof. reflexivity. Qed.

Lemma summary_kwargs_name (v1 v2 v3 v4 v5 v6 v7 v8 : value) :
  ({[ "id" := v1; "name" := v2; "role" := v3; "rating" := v4;
      "reviews_count" := v5; "city" := v6; "avatar" := v7;
      "verified" := v8 ]} : doc) !! "name" = Some v2.
Proof. reflexivity. Qed.

Lemma summary_kwargs_rating (v1 v2 v3 v4 v5 v6 v7 v8 : value) :
  ({[ "id" := v1; "name" := v2; "role" := v3; "rating" := v4;
      "reviews_count" := v5; "city" := v6; "avatar" := v7;
      "verified" := v8 ]} : doc) !! "rating" = Some v4.
Proof. reflexivity. Qed.

Lemma summary_kwargs_reviews_count (v1 v2 v3 v4 v5 v6 v7 v8 : value) :
  ({[ "id" := v1; "name" := v2; "role" := v3; "rating" := v4;
      "reviews_count" := v5; "city" := v6; "avatar" := v7;
      "verified" := v8 ]} : doc) !! "reviews_count" = Some v5.
Proof. reflexivity. Qed.

Lemma summary_kwargs_avatar (v1 v2 v3 v4 v5 v6 v7 v8 : value) :
  ({[ "id" := v1; "name" := v2; "role" := v3; "rating" := v4;
      "reviews_count" := v5; "city" := v6; "avatar" := v7;
      "verified" := v8 ]} : doc) !! "avatar" = Some v7.
Proof. reflexivity. Qed.

Section summary_facts.
Context `{Runtime}.

(** Every field of a summary, traced back to the document. *)
Lemma serialize_inv (d : doc) (o : MasterOut.t) :
  _serialize_master d = Ok o →
  MasterOut.id o = str (get d "_id")
  ∧ as_str (get_or d "name" (VStr "")) = Some (MasterOut.name o)
  ∧ float (get_or d "rating" (VInt 0)) = Ok (MasterOut.rating o)
  ∧ int (get_or d "reviews_count" (VInt 0)) = Ok (MasterOut.reviews_count o)
  ∧ optional as_str (Some (get d "city")) = Some (MasterOut.city o)
  ∧ optional as_str (Some (get d "avatar")) = Some (MasterOut.avatar o)
  ∧ MasterOut.verified o = truthy (get_or d "verified" (VBool false)).
Proof.
  unfold _serialize_master.
  destruct (index0 _) as [role|]; [|done]. cbn [mbind result_bind].
  destruct (float _) as [rating|]; [|done]. cbn [mbind result_bind].
  destruct (int _) as [count|]; [|done]. cbn [mbind result_bind].
  unfold construct.
  destruct (MasterOut.validate _) as [o'|] eqn:Hv; [|done].
  intros [= ->]. unfold MasterOut.validate in Hv. fields_of Hv. simpl.
  rewrite summary_kwargs_id, summary_kwargs_name, summary_kwargs_rating,
    summary_kwargs_reviews_count, summary_kwargs_city, summary_kwargs_avatar,
    summary_kwargs_verified in *.
  repeat match goal with
  | Hf : required _ (Some _) = Some _ |- _ => simpl in Hf
  | Hf : defaulted _ _ (Some _) = Some _ |- _ => simpl in Hf
  | Hf : Some _ = Some _ |- _ => inversion Hf; subst; clear Hf
  end.
  by repeat split.
Qed.
End summary_facts.

(** X9. Whatever document [_serialize_master] turns into a summary, the
    summary's id is [str] of the document's [_id], so the text "None"
    when there is none; a missing name gives the empty name, a missing
    rating or reviews count gives 0, a missing city or avatar gives
    none; and [verified] is the truth value of the stored field, so any
    non-empty text there, even "false", counts as verified. *)
Theorem summary_defaults_for_missing_fields `{Runtime}
    (d : doc) (o : MasterOut.t) :
  _serialize_master d = Ok o →
  MasterOut.id o = str (get d "_id")
  ∧ (d !! "_id" = None → MasterOut.id o = "None")
  ∧ (d !! "name" = None → MasterOut.name o = "")
  ∧ (d !! "rating" = None → MasterOut.rating o = double 0)
  ∧ (d !! "reviews_count" = None → MasterOut.reviews_count o = 0)
  ∧ (d !! "city" = None → MasterOut.city o = None)
  ∧ (d !! "avatar" = None → MasterOut.avatar o = None)
  ∧ (d !! "verified" = None → MasterOut.verified o = false)
  ∧ (∀ s, d !! "verified" = Some (VStr s) → s ≠ "" →
     MasterOut.verified o = true).
Proof.
  intros Ho.
  apply serialize_inv in Ho as (Hid & Hname & Hrating & Hcount & Hcity & Havatar & Hver).
  unfold get, get_or in *.
  split; [done|].
  split; [by intros Hd; rewrite Hid, Hd|].
  split; [by intros Hd; rewrite Hd in Hname; inversion Hname|].
  split; [by intros Hd; rewrite Hd in Hrating; inversion Hrating|].
  split; [by intros Hd; rewrite Hd in Hcount; inversion Hcount|].
  split; [by intros Hd; rewrite Hd in Hcity; inversion Hcity|].
  split; [by intros Hd; rewrite Hd in Havatar; inversion Havatar|].
  split; [by intros Hd; rewrite Hver, Hd|].
  intros s Hd Hs. rewrite Hver, Hd. simpl.
  by rewrite (bool_decide_eq_false_2 _ Hs).
Qed.

Lemma summary_defaults_for_missing_fields_witness :
  MasterOut.id
    {| MasterOut.id := "None"; MasterOut.name := ""; MasterOut.role := None;
       MasterOut.rating := double 0; MasterOut.reviews_count := 0;
       MasterOut.city := None; MasterOut.avatar := None;
       MasterOut.verified := true |}
  = @str sample_runtime (get {[ "verified" := VStr "false" ]} "_id").
Proof.
  refine (proj1 (@summary_defaults_for_missing_fields sample_runtime
                   {[ "verified" := VStr "false" ]} _ _)).
  reflexivity.
Defined.

(** A list comprehension over a function that raises fails as a whole. *)
Lemma mapM_result_Err {E A B} (f : A → result E B) (l : list A) (x : A) (e : E) :
  x ∈ l → f x = Err e → ∃ e', mapM f l = Err e'.
Proof.
  induction l as [|y l IH]; intros Hin Hx.
  - by apply elem_of_nil in Hin.
  - simpl. unfold mbind, result_bind at 1.
    destruct (f y) as [b|e0] eqn:Hy; [|by exists e0].
    apply elem_of_cons in Hin as [->|Hin]; [congruence|].
    destruct (IH Hin Hx) as [e' ->]. by exists e'.
Qed.

Lemma mapM_result_lookup {E A B} (f : A → result E B) (l : list A) (k : list B)
    (x : A) :
  mapM f l = Ok k → x ∈ l → ∃ y, y ∈ k ∧ f x = Ok y.
Proof.
  intros Hm Hin. apply mapM_result_Forall2 in Hm.
  apply list_elem_of_lookup in Hin as [i Hi].
  destruct (Forall2_lookup_l _ _ _ _ _ Hm Hi) as (y & Hy & Hxy).
  exists y. split; [|done]. by apply list_elem_of_lookup_2 in Hy.
Qed.

(** X10. The masters listing is all or nothing: when one of the documents
    that the gateway returns cannot be serialized, the whole request
    fails with an [InternalError], no summary is returned, and the store
    keeps its documents. *)
Theorem one_bad_document_fails_the_listing `{Runtime}
    (city : option string) (limit : Z) (st : store) (d : doc) (e : exn) :
  connected st = true →
  d ∈ take (Z.to_nat limit)
        (filter (λ d, matches (filter_on "city" city) d) (collection st "master")) →
  _serialize_master d = Err e →
  (∃ e', (list_masters city limit st).1 = Err (InternalError e'))
  ∧ collections (list_masters city limit st).2 = collections st.
Proof.
  intros Hc Hin Hd. rewrite list_masters_run. cbv zeta. rewrite Hc.
  destruct (mapM_result_Err _ _ d e Hin Hd) as [e' ->].
  split; [by exists e'|done].
Qed.

Lemma one_bad_document_fails_the_listing_witness :
  ∃ e',
    (@list_masters sample_runtime None 12
       {| connected := true;
          collections := {[ "master" := [ {[ "name" := VInt 7 ]} ] ]};
          next_oid := 1; write_plan := []; oplog := [] |}).1
    = Err (InternalError e').
Proof.
  refine (proj1 (@one_bad_document_fails_the_listing sample_runtime None 12 _
                   {[ "name" := VInt 7 ]} (ValidationError ["name"]) _ _ _)).
  - reflexivity.
  - vm_compute. apply list_elem_of_here.
  - reflexivity.
Defined.

(** X11. A master without avatar that [POST /api/masters] accepts and
    the store takes is found again: the request answers with a fresh
    identifier, and a listing without filter, or filtered on the master's
    own non-empty city, with a limit above the number of stored masters,
    succeeds and contains the summary with that identifier, the name,
    first skill, rating, reviews count and city of the request, and
    [verified] false, provided the masters it lists besides were stored
    by this system without avatar.  A master with an avatar is stored as
    well, but from then on such a listing fails with an [InternalError]:
    the stored avatar is a URL object, which the summary does not take. *)
Theorem created_master_is_listed `{Runtime}
    (kw : doc) (m : Master.t) (st : store) (city : option string) (limit : Z) :
  Master.validate kw = Ok m →
  connected st = true →
  true ∉ take 1 (write_plan st) →
  (length (collection st "master") < Z.to_nat limit)%nat →
  city = None ∨ (city = Master.city m ∧ city ≠ Some "") →
  let r := serve (POST_masters kw) st in
  r.1 = Ok (CreatedR (oid_str (next_oid st)))
  ∧ (Master.avatar m = None →
     Forall stored_without_avatar
       (filter (λ d, matches (filter_on "city" city) d) (collection st "master")) →
     ∃ outs,
       (list_masters city limit r.2).1 = Ok outs
       ∧ summary_of m (next_oid st) ∈ outs)
  ∧ (Master.avatar m ≠ None →
     ∃ e, (list_masters city limit r.2).1 = Err (InternalError e)).
Proof.
  intros Hv Hc Hplan Hlen Hcity r.
  destruct (create_master_stored kw m st Hv Hc Hplan) as (Hr & Hc1 & C1 & _).
  fold r in Hr, Hc1, C1. split; [done|].
  set (new := <["_id" := VObjectId (next_oid st)]> (Master.dump m)) in *.
  set (flt := filter_on "city" city).
  assert (Hnew : matches flt new = true).
  { unfold flt. destruct Hcity as [->|[-> Hne]]; [apply matches_empty|].
    destruct m as [n e p [c|] b a s rt ct]; simpl in *; [|done].
    unfold filter_on, truthy.
    rewrite bool_decide_eq_false_2 by congruence. cbn [negb].
    unfold matches. rewrite map_to_list_singleton. simpl.
    unfold new. rewrite lookup_insert_ne by done.
    assert (Hl : Master.dump (Master.mk n e p (Some c) b a s rt ct) !! "city"
                 = Some (VStr c)) by reflexivity.
    rewrite Hl. simpl. by rewrite bool_decide_eq_true_2. }
  assert (Hdocs : take (Z.to_nat limit)
                    (filter (λ d, matches flt d) (collection r.2 "master"))
                  = filter (λ d, matches flt d) (collection st "master") ++ [new]).
  { rewrite C1, filter_app, filter_cons_True, filter_nil
      by (by apply Is_true_true).
    apply take_ge. rewrite length_app. cbn [length].
    pose proof (length_filter (λ d, matches flt d) (collection st "master")).
    lia. }
  split.
  - intros Hm Hothers.
    destruct (list_masters_total city limit r.2) as [outs Houts]; [|done|].
    { fold flt. rewrite Hdocs. apply Forall_app. split; [done|].
      apply Forall_singleton. by exists m, (next_oid st). }
    exists outs. split; [done|].
    rewrite list_masters_run in Houts. cbv zeta in Houts. rewrite Hc1 in Houts.
    fold flt in Houts. rewrite Hdocs in Houts.
    destruct (mapM _ _) as [outs'|] eqn:Hmap; [|done].
    cbn [fst] in Houts. injection Houts as ->.
    destruct (mapM_result_lookup _ _ _ new Hmap) as (o & Ho & Hs).
    { apply elem_of_app. right. apply list_elem_of_here. }
    unfold new in Hs. rewrite serialize_stored_master, Hm in Hs.
    by injection Hs as <-.
  - intros Hm. rewrite list_masters_run. cbv zeta. rewrite Hc1.
    fold flt. rewrite Hdocs.
    destruct (mapM_result_Err _serialize_master
                (filter (λ d, matches flt d) (collection st "master") ++ [new])
                new (ValidationError ["avatar"])) as [e' ->].
    + apply elem_of_app. right. apply list_elem_of_here.
    + unfold new. rewrite serialize_stored_master.
      by destruct (Master.avatar m).
    + by exists e'.
Qed.

Lemma created_master_is_listed_witness :
  ∃ outs,
    (@list_masters sample_runtime (Some "Riga") 12
       (@serve sample_runtime
          (POST_masters {[ "name" := VStr "Anna"; "city" := VStr "Riga" ]})
          (@run sample_runtime [POST_seed] (fresh true []))).2).1 = Ok outs
    ∧ summary_of
        {| Master.name := "Anna"; Master.email := None; Master.phone := None;
           Master.city := Some "Riga"; Master.bio := None;
           Master.avatar := None; Master.skills := [];
           Master.rating := double 0; Master.reviews_count := 0 |} 3 ∈ outs.
Proof.
  refine (proj1 (proj2 (@created_master_is_listed sample_runtime
                   {[ "name" := VStr "Anna"; "city" := VStr "Riga" ]}
                   {| Master.name := "Anna"; Master.email := None;
                      Master.phone := None; Master.city := Some "Riga";
                      Master.bio := None; Master.avatar := None;
                      Master.skills := []; Master.rating := double 0;
                      Master.reviews_count := 0 |}
                   (@run sample_runtime [POST_seed] (fresh true []))
                   (Some "Riga") 12 _ _ _ _ _)) _ _).
  - reflexivity.
  - reflexivity.
  - vm_compute. apply not_elem_of_nil.
  - vm_compute. lia.
  - right. split; [reflexivity|discriminate].
  - reflexivity.
  - exact (Forall_nil_2 _).
Defined.

(** * Further properties of the bookings *)

(** What an insert that returns has done, and what one that raises has
    not. *)
Lemma create_document_returns (kind : string) (record : doc) (st st1 : store)
    (id : string) :
  create_document kind record st = (Ok id, st1) →
  id = oid_str (next_oid st)
  ∧ collection st1 kind
    = collection st kind ++ [<["_id" := VObjectId (next_oid st)]> record]
  ∧ (∀ k, k ≠ kind → collection st1 k = collection st k)
  ∧ oplog st1 = oplog st ++ [(Insert kind record, None)].
Proof.
  unfold create_document.
  destruct (connected st); cbn [negb]; [|done].
  destruct (write_plan st) as [|[] plan]; intros [= <- <-]; cbn [oplog log];
    (split; [done|]); (split; [by rewrite collection_log, collection_append_eq|]);
    (split; [by intros k Hk; rewrite collection_log, collection_append_ne|]);
    done.
Qed.

Lemma create_document_raises (kind : string) (record : doc) (st st1 : store)
    (e : exn) :
  create_document kind record st = (Err e, st1) →
  collections st1 = collections st
  ∧ oplog st1 = oplog st ++ [(Insert kind record, Some e)]
  ∧ ((connected st = false ∧ e = StoreUnavailable)
     ∨ (connected st = true ∧ e = StoreWriteError
        ∧ ∃ plan, write_plan st = true :: plan)).
Proof.
  unfold create_document.
  destruct (connected st) eqn:Hc; cbn [negb].
  - destruct (write_plan st) as [|[] plan] eqn:Hp; intros [= <- <-];
      (split; [done|]); (split; [done|]). right. by eauto.
  - intros [= <- <-]. split; [done|]. split; [done|]. by left.
Qed.

Section booking_listing.
Context `{Runtime}.

Lemma list_bookings_run (master_id : option string) (limit : Z) (st : store) :
  list_bookings master_id limit st
  = let flt := filter_on "master_id" master_id in
    if connected st then
      (Ok (sanitize_id <$>
             take (Z.to_nat limit)
               (filter (λ d, matches flt d) (collection st "booking"))),
       log (Find "booking" flt limit) None st)
    else
      (Err (InternalError StoreUnavailable),
       log (Find "booking" flt limit) (Some StoreUnavailable) st).
Proof.
  unfold list_bookings, try_500. rewrite bind_run. unfold get_documents.
  by destruct (connected st).
Qed.

Lemma filter_on_nonempty (key s : string) :
  s ≠ "" → filter_on key (Some s) = {[ key := VStr s ]}.
Proof.
  intros Hs. unfold filter_on, truthy. by rewrite (bool_decide_eq_false_2 _ Hs).
Qed.

Lemma sanitize_id_lookup (d : doc) :
  sanitize_id d !! "_id" = None
  ∧ sanitize_id d !! "id" = Some (VStr (str (get_or d "_id" (VStr ""))))
  ∧ ∀ k, k ≠ "_id" → k ≠ "id" → sanitize_id d !! k = d !! k.
Proof.
  unfold sanitize_id. split; [|split].
  - rewrite lookup_insert_ne by done. apply lookup_delete_eq.
  - apply lookup_insert_eq.
  - intros k H1 H2.
    rewrite lookup_insert_ne by done. by rewrite lookup_delete_ne.
Qed.
End booking_listing.

(** X12. Every record that [list_bookings] returns is a stored booking
    with its [_id] field removed and an [id] field holding the text of
    that identifier (the empty text when the document had none); every
    other field is the stored one.  With a non-empty [master_id] only
    bookings of exactly that master are returned; there are never more
    than [limit] records, and the store keeps its documents as they
    were. *)
Theorem listed_bookings_are_renamed_copies `{Runtime}
    (master_id : option string) (limit : Z) (st st' : store)
    (records : list doc) :
  list_bookings master_id limit st = (Ok records, st') →
  (length records ≤ Z.to_nat limit)%nat
  ∧ collections st' = collections st
  ∧ Forall (λ r, r !! "_id" = None
             ∧ ∃ d, d ∈ collection st "booking"
                 ∧ r !! "id" = Some (VStr (str (get_or d "_id" (VStr ""))))
                 ∧ (d !! "_id" = None → r !! "id" = Some (VStr ""))
                 ∧ (∀ k, k ≠ "_id" → k ≠ "id" → r !! k = d !! k)
                 ∧ (∀ mid, master_id = Some mid → mid ≠ "" →
                    r !! "master_id" = Some (VStr mid))) records.
Proof.
  rewrite list_bookings_run. cbv zeta.
  destruct (connected st); [|done]. intros [= <- <-].
  split; [|split; [done|]].
  - rewrite length_fmap, length_take. lia.
  - apply Forall_fmap, Forall_forall. intros d Hd. cbn [compose].
    apply subseteq_take, list_elem_of_filter in Hd as [Hm Hd].
    destruct (sanitize_id_lookup d) as (Hno & Hid & Hother).
    split; [done|]. exists d. split; [done|]. split; [done|].
    split; [|split; [done|]].
    + intros Hnone. rewrite Hid. unfold get_or. by rewrite Hnone.
    + intros mid -> Hmid. rewrite Hother by done.
      rewrite (filter_on_nonempty _ _ Hmid) in Hm.
      exact (matches_singleton "master_id" mid d (proj1 (Is_true_true _) Hm)).
Qed.

Lemma listed_bookings_are_renamed_copies_witness :
  (length
     [ @sanitize_id sample_runtime
         {[ "master_id" := VStr "m1"; "_id" := VObjectId 4 ]} ]
   ≤ Z.to_nat 5)%nat.
Proof.
  refine (proj1 (@listed_bookings_are_renamed_copies sample_runtime
                   (Some "m1") 5
                   {| connected := true;
                      collections :=
                        {[ "booking" :=
                             [ {[ "master_id" := VStr "m1"; "_id" := VObjectId 4 ]};
                               {[ "master_id" := VStr "m2"; "_id" := VObjectId 5 ]} ] ]};
                      next_oid := 6; write_plan := []; oplog := [] |}
                   _ _ _)).
  vm_compute. reflexivity.
Defined.

Section booking_request_facts.
Context `{Runtime}.

(** A booking request served by a store that takes the two writes. *)
Lemma booking_request_stored (kw : doc) (req : BookingRequest.t) (st : store) :
  BookingRequest.validate kw = Ok req →
  connected st = true →
  true ∉ take 2 (write_plan st) →
  let n := next_oid st in
  let r := serve (POST_bookings kw) st in
  r.1 = Ok (BookingR {| BookingOut.id := oid_str (N.succ n);
                        BookingOut.status := "pending" |})
  ∧ connected r.2 = true
  ∧ collection r.2 "booking"
    = collection st "booking"
      ++ [<["_id" := VObjectId (N.succ n)]>
            (Booking.dump (booking_of req (oid_str n)))].
Proof.
  intros Hv Hc Hplan n r.
  assert (H1 : true ∉ take 1 (write_plan st)).
  { intros Hin. apply Hplan.
    destruct (write_plan st) as [|a [|b plan]]; cbn in *; [done|done|].
    apply list_elem_of_singleton in Hin as <-. apply list_elem_of_here. }
  assert (H2 : true ∉ take 1 (tail (write_plan st))).
  { intros Hin. apply Hplan.
    destruct (write_plan st) as [|a [|b plan]]; cbn in *;
      [by apply elem_of_nil in Hin|by apply elem_of_nil in Hin|].
    apply list_elem_of_singleton in Hin as <-.
    apply list_elem_of_further, list_elem_of_here. }
  set (client := Client.dump (client_of req)).
  set (booking := Booking.dump (booking_of req (oid_str n))).
  destruct (create_document_Ok "client" client st Hc H1)
    as (R1 & C1 & O1 & L1 & Hc1 & P1 & N1).
  pose proof (create_document_Ok "booking" booking
                (create_document "client" client st).2 Hc1) as Hsecond.
  rewrite P1, N1 in Hsecond.
  destruct (Hsecond H2) as (R2 & C2 & O2 & L2 & Hc2 & _).
  assert (Hrun : r = (Ok (BookingR {| BookingOut.id := oid_str (N.succ n);
                                      BookingOut.status := "pending" |}),
                      (create_document "booking" booking
                         (create_document "client" client st).2).2)).
  { unfold r. simpl. unfold validated_body. rewrite Hv. unfold respond.
    rewrite (create_booking_run req st (BookingRequest_validate_email kw req Hv)).
    fold client.
    destruct (create_document "client" client st) as [r1 st1]. simpl in *.
    subst r1. fold n. fold booking.
    destruct (create_document "booking" booking st1) as [r2 st2]. simpl in *.
    by subst r2. }
  rewrite Hrun. simpl. split; [done|]. split; [done|].
  rewrite C2. f_equal. by apply O1.
Qed.
End booking_request_facts.

(** X13. A booking that [POST /api/bookings] stores is found again: a
    listing without filter, or filtered on the request's own non-empty
    [master_id], with a limit above the number of stored bookings,
    contains a record whose [id] is the identifier the request answered
    with, whose status is "pending", whose master is the request's and
    whose client is the one just created; the record has no [_id]. *)
Theorem created_booking_is_listed `{Runtime}
    (kw : doc) (req : BookingRequest.t) (st : store)
    (master_id : option string) (limit : Z) :
  BookingRequest.validate kw = Ok req →
  connected st = true →
  true ∉ take 2 (write_plan st) →
  (length (collection st "booking") < Z.to_nat limit)%nat →
  master_id = None
  ∨ (master_id = Some (BookingRequest.master_id req)
     ∧ BookingRequest.master_id req ≠ "") →
  let r := serve (POST_bookings kw) st in
  ∃ booking_id records record,
    r.1 = Ok (BookingR {| BookingOut.id := booking_id;
                          BookingOut.status := "pending" |})
    ∧ (list_bookings master_id limit r.2).1 = Ok records
    ∧ record ∈ records
    ∧ record !! "id" = Some (VStr booking_id)
    ∧ record !! "_id" = None
    ∧ record !! "status" = Some (VStr "pending")
    ∧ record !! "master_id" = Some (VStr (BookingRequest.master_id req))
    ∧ record !! "client_id" = Some (VStr (oid_str (next_oid st))).
Proof.
  intros Hv Hc Hplan Hlen Hflt r.
  destruct (booking_request_stored kw req st Hv Hc Hplan) as (Hr & Hc2 & Hcoll).
  fold r in Hr, Hc2, Hcoll.
  set (new := <["_id" := VObjectId (N.succ (next_oid st))]>
                (Booking.dump (booking_of req (oid_str (next_oid st))))) in *.
  exists (oid_str (N.succ (next_oid st))),
    (sanitize_id <$> take (Z.to_nat limit)
       (filter (λ d, matches (filter_on "master_id" master_id) d)
          (collection r.2 "booking"))),
    (sanitize_id new).
  split; [done|].
  split; [by rewrite list_bookings_run; cbv zeta; rewrite Hc2|].
  split.
  - apply list_elem_of_fmap_2. rewrite take_ge.
    + apply list_elem_of_filter. split.
      * apply Is_true_true.
        destruct Hflt as [->|[-> Hne]]; [apply matches_empty|].
        rewrite (filter_on_nonempty _ _ Hne).
        unfold matches. rewrite map_to_list_singleton. simpl.
        assert (Hl : new !! "master_id"
                     = Some (VStr (BookingRequest.master_id req)))
          by reflexivity.
        rewrite Hl. simpl. by rewrite bool_decide_eq_true_2.
      * rewrite Hcoll. apply elem_of_app. right. apply list_elem_of_here.
    + etrans; [apply length_filter|]. rewrite Hcoll, length_app. simpl. lia.
  - destruct (sanitize_id_lookup new) as (Hno & Hid & Hother).
    split; [by rewrite Hid|]. split; [done|].
    by rewrite !Hother by done.
Qed.

Lemma created_booking_is_listed_witness :
  ∃ booking_id records record,
    (@serve sample_runtime
       (POST_bookings {[ "master_id" := VStr "abc123";
                         "name" := VStr "Jane Doe";
                         "email" := VStr "jane@example.com";
                         "datetime_utc" := VDatetime 1717236000 ]})
       (fresh true [])).1
    = Ok (BookingR {| BookingOut.id := booking_id;
                      BookingOut.status := "pending" |})
    ∧ (@list_bookings sample_runtime (Some "abc123") 50
         (@serve sample_runtime
            (POST_bookings {[ "master_id" := VStr "abc123";
                              "name" := VStr "Jane Doe";
                              "email" := VStr "jane@example.com";
                              "datetime_utc" := VDatetime 1717236000 ]})
            (fresh true [])).2).1 = Ok records
    ∧ record ∈ records
    ∧ record !! "id" = Some (VStr booking_id)
    ∧ record !! "_id" = None
    ∧ record !! "status" = Some (VStr "pending")
    ∧ record !! "master_id" = Some (VStr "abc123")
    ∧ record !! "client_id" = Some (VStr (oid_str 0)).
Proof.
  refine (@created_booking_is_listed sample_runtime _
            {| BookingRequest.master_id := "abc123";
               BookingRequest.name := "Jane Doe";
               BookingRequest.email := "jane@example.com";
               BookingRequest.datetime_utc := 1717236000;
               BookingRequest.notes := None |}
            (fresh true []) (Some "abc123") 50 _ _ _ _ _).
  - reflexivity.
  - reflexivity.
  - vm_compute. apply not_elem_of_nil.
  - vm_compute. lia.
  - right. split; [reflexivity|discriminate].
Defined.

(** X14. When the client insert of a booking request fails, because the
    store is not connected or because the write fails, the request ends
    in the [InternalError] of that failure, the booking insert is never
    attempted, and nothing is stored. *)
Theorem failed_client_insert_stores_nothing `{Runtime}
    (kw : doc) (req : BookingRequest.t) (st : store) :
  BookingRequest.validate kw = Ok req →
  connected st = false ∨ (∃ plan, write_plan st = true :: plan) →
  let r := serve (POST_bookings kw) st in
  ∃ e,
    r.1 = Err (InternalError e)
    ∧ (connected st = false → e = StoreUnavailable)
    ∧ (connected st = true → e = StoreWriteError)
    ∧ collections r.2 = collections st
    ∧ oplog r.2
      = oplog st ++ [(Insert "client" (Client.dump (client_of req)), Some e)].
Proof.
  intros Hv Hfail r. unfold r. simpl. unfold validated_body. rewrite Hv.
  unfold respond.
  rewrite (create_booking_run req st (BookingRequest_validate_email kw req Hv)).
  destruct (create_document "client" _ st) as [[id|e] st1] eqn:Hrun.
  - exfalso. unfold create_document in Hrun.
    destruct Hfail as [Hc|[plan Hp]].
    + by rewrite Hc in Hrun.
    + rewrite Hp in Hrun. by destruct (connected st).
  - apply create_document_raises in Hrun
      as (Hcoll & Hlog & [[Hc ->]|(Hc & -> & _)]);
      eexists; (split; [reflexivity|]); simpl; repeat split; try done;
      intros Hc'; congruence.
Qed.

Lemma failed_client_insert_stores_nothing_witness :
  ∃ e,
    (@serve sample_runtime
       (POST_bookings {[ "master_id" := VStr "abc123";
                         "name" := VStr "Jane Doe";
                         "email" := VStr "jane@example.com";
                         "datetime_utc" := VDatetime 1717236000 ]})
       (fresh false [])).1 = Err (InternalError e)
    ∧ (connected (fresh false []) = false → e = StoreUnavailable)
    ∧ (connected (fresh false []) = true → e = StoreWriteError)
    ∧ collections
        (@serve sample_runtime
           (POST_bookings {[ "master_id" := VStr "abc123";
                             "name" := VStr "Jane Doe";
                             "email" := VStr "jane@example.com";
                             "datetime_utc" := VDatetime 1717236000 ]})
           (fresh false [])).2 = collections (fresh false [])
    ∧ oplog
        (@serve sample_runtime
           (POST_bookings {[ "master_id" := VStr "abc123";
                             "name" := VStr "Jane Doe";
                             "email" := VStr "jane@example.com";
                             "datetime_utc" := VDatetime 1717236000 ]})
           (fresh false [])).2
      = oplog (fresh false [])
        ++ [(Insert "client"
               (Client.dump
                  (client_of
                     {| BookingRequest.master_id := "abc123";
                        BookingRequest.name := "Jane Doe";
                        BookingRequest.email := "jane@example.com";
                        BookingRequest.datetime_utc := 1717236000;
                        BookingRequest.notes := None |})), Some e)].
Proof.
  refine (@failed_client_insert_stores_nothing sample_runtime _ _
            (fresh false []) _ _).
  - reflexivity.
  - by left.
Defined.

(** * Further properties of the store under requests *)

Section store_facts.
Context `{Runtime}.

(** An invariant that the reads keep and that the writes keep on the
    collections a request may touch, every request keeps. *)
Lemma keeps_serve_touched (I : store → Prop) (r : request) :
  (∀ kind record, touches r kind → keeps I (create_document kind record)) →
  (∀ kind flt limit, keeps I (get_documents kind flt limit)) →
  keeps I (serve r).
Proof.
  intros Hw Hr.
  destruct r as [|q|body| |body|q]; simpl in *.
  - by intros st Hst.
  - intros st Hst. unfold validated.
    destruct (masters_query q) as [p|]; [|done].
    apply (keeps_respond I); [apply keeps_try_500|done].
    apply keeps_bind; [apply Hr|]. intros docs. apply keeps_lift.
  - intros st Hst. unfold validated_body.
    destruct (Master.validate body) as [m|fields];
      [|destruct (renders body fields); done].
    apply (keeps_respond I); [apply keeps_try_500|done]. by apply Hw.
  - apply keeps_respond. intros st Hst. unfold seed_demo_data.
    destruct (mapM _ seed_sample) as [sample|e]; [|done].
    apply (keeps_try_500 I); [|done].
    apply keeps_bind; [|intros ids; apply keeps_ret].
    apply keeps_mapM, Forall_forall. intros m _. by apply Hw.
  - intros st Hst. unfold validated_body.
    destruct (BookingRequest.validate body) as [req|fields];
      [|destruct (renders body fields); done].
    apply (keeps_respond I); [apply keeps_try_500|done].
    apply keeps_bind; [apply keeps_lift|]. intros client.
    apply keeps_bind; [apply Hw; by left|]. intros client_id.
    apply keeps_bind; [apply keeps_lift|]. intros booking.
    apply keeps_bind; [apply Hw; by right|]. intros booking_id.
    apply keeps_lift.
  - intros st Hst. unfold validated.
    destruct (bookings_query q) as [p|]; [|done].
    apply (keeps_respond I); [apply keeps_try_500|done].
    apply keeps_bind; [apply Hr|]. intros docs. apply keeps_ret.
Qed.

Lemma get_documents_store (kind : string) (flt : doc) (limit : Z) (st : store) :
  collections (get_documents kind flt limit st).2 = collections st.
Proof. unfold get_documents. by destruct (connected st). Qed.

Lemma collection_of_collections (st st' : store) (k : string) :
  collections st' = collections st → collection st' k = collection st k.
Proof. unfold collection. by intros ->. Qed.
End store_facts.

Section growth_facts.
Context `{Runtime}.

Lemma collection_grows (r : request) (st : store) (k : string) :
  collection st k `prefix_of` collection (serve r st).2 k.
Proof.
  apply (keeps_serve_touched
           (λ s, collection st k `prefix_of` collection s k) r); [| |done].
  - intros kind record _ s Hs.
    destruct (create_document_collection kind record s k) as [->|[_ ->]];
      [done|].
    etrans; [exact Hs|]. by apply prefix_app_r.
  - intros kind flt limit s Hs.
    by rewrite (collection_of_collections _ _ _
                  (get_documents_store kind flt limit s)).
Qed.

Lemma untouched_collection (r : request) (st : store) (k : string) :
  ¬ touches r k → collection (serve r st).2 k = collection st k.
Proof.
  intros Hnot.
  apply (keeps_serve_touched (λ s, collection s k = collection st k) r);
    [| |done].
  - intros kind record Hkind s Hs.
    destruct (create_document_collection kind record s k) as [->|[-> _]];
      [done|by destruct Hnot].
  - intros kind flt limit s Hs.
    by rewrite (collection_of_collections _ _ _
                  (get_documents_store kind flt limit s)).
Qed.
End growth_facts.

(** X15. No request removes or changes a stored document: after any
    request every collection starts with the documents it held before, in
    the same order.  A request writes to its own collections only,
    masters for [POST /api/masters] and the seeding, clients and bookings
    for [POST /api/bookings], and the three [GET] requests write to
    none. *)
Theorem requests_only_append_to_their_own_collections `{Runtime}
    (r : request) (st : store) (k : string) :
  collection st k `prefix_of` collection (serve r st).2 k
  ∧ (¬ touches r k → collection (serve r st).2 k = collection st k)
  ∧ ∀ rs, collection st k `prefix_of` collection (run rs st) k.
Proof.
  split; [apply collection_grows|]. split; [apply untouched_collection|].
  intros rs. revert st. induction rs as [|r0 rs IH]; intros st; [done|].
  simpl. etrans; [apply (collection_grows r0 st)|]. apply IH.
Qed.

Lemma booking_refers_to_more_clients (clients more : list doc) (b : doc) :
  booking_refers_to_client clients b →
  booking_refers_to_client (clients ++ more) b.
Proof.
  intros (Hs & Hu & n & c & Hc & Hid & Hb). split; [done|]. split; [done|].
  exists n, c. split; [|done]. apply elem_of_app. by left.
Qed.

Section booking_invariant.
Context `{Runtime}.

Lemma keeps_bookings_ok (r : request) : keeps bookings_ok (serve r).
Proof.
  intros st Hst.
  destruct r as [|q|body| |body|q];
    try (unfold bookings_ok; rewrite !untouched_collection by (simpl; first [tauto | done]);
         exact Hst).
  - simpl. unfold validated_body.
    destruct (BookingRequest.validate body) as [req|fields] eqn:Hv;
      [|destruct (renders body fields); done].
    unfold respond.
    rewrite (create_booking_run req st
               (BookingRequest_validate_email body req Hv)).
    destruct (create_document "client" _ st) as [[cid|e] st1] eqn:Hone.
    + apply create_document_returns in Hone as (-> & Hcl & Hoth & _).
      assert (Hst1 : Forall (booking_refers_to_client (collection st1 "client"))
                       (collection st "booking")).
      { rewrite Hcl. eapply Forall_impl; [exact Hst|].
        intros b. apply booking_refers_to_more_clients. }
      destruct (create_document "booking" _ st1) as [[bid|e] st2] eqn:Htwo.
      * apply create_document_returns in Htwo as (_ & Hbk & Hoth2 & _).
        simpl. unfold bookings_ok.
        rewrite Hbk, (Hoth2 "client") by done. rewrite (Hoth "booking") by done.
        apply Forall_app. split; [done|]. apply Forall_singleton.
        split; [reflexivity|]. split; [reflexivity|].
        exists (next_oid st),
          (<["_id" := VObjectId (next_oid st)]> (Client.dump (client_of req))).
        split; [|split; reflexivity].
        rewrite Hcl. apply elem_of_app. right. apply list_elem_of_here.
      * apply create_document_raises in Htwo as (Hsame & _).
        simpl. unfold bookings_ok.
        rewrite !(collection_of_collections _ _ _ Hsame).
        by rewrite (Hoth "booking").
    + apply create_document_raises in Hone as (Hsame & _).
      simpl. unfold bookings_ok.
      by rewrite !(collection_of_collections _ _ _ Hsame).
Qed.

Lemma run_bookings_ok (rs : list request) (st : store) :
  bookings_ok st → bookings_ok (run rs st).
Proof.
  revert st. induction rs as [|r rs IH]; intros st Hst; [done|].
  simpl. apply IH. by apply keeps_bookings_ok.
Qed.
End booking_invariant.

(** X16. Whatever requests this system served since it started, every
    booking in its store is pending, has the service "unknown" and names
    a client whose document is in the store; and so does every record
    that [list_bookings] returns.  The references hold although nothing
    checks them, because clients are written before their bookings and
    nothing is ever removed. *)
Theorem stored_bookings_refer_to_stored_clients `{Runtime}
    (rs : list request) (conn : bool) (plan : list bool) :
  let st := run rs (fresh conn plan) in
  bookings_ok st
  ∧ ∀ master_id limit records st',
      list_bookings master_id limit st = (Ok records, st') →
      Forall (λ r, r !! "status" = Some (VStr "pending")
                 ∧ r !! "service_id" = Some (VStr "unknown")
                 ∧ ∃ n c, c ∈ collection st "client"
                     ∧ c !! "_id" = Some (VObjectId n)
                     ∧ r !! "client_id" = Some (VStr (oid_str n))) records.
Proof.
  intros st.
  assert (Hok : bookings_ok st).
  { apply run_bookings_ok. unfold bookings_ok, collection. simpl.
    by rewrite !lookup_empty. }
  split; [done|].
  intros master_id limit records st'. rewrite list_bookings_run. cbv zeta.
  destruct (connected st); [|done]. intros [= <- <-].
  apply Forall_fmap, Forall_forall. intros d Hd. cbn [compose].
  apply subseteq_take, list_elem_of_filter in Hd as [_ Hd].
  destruct (proj1 (Forall_forall _ _) Hok d Hd)
    as (Hs & Hu & n & c & Hc & Hid & Hb).
  destruct (sanitize_id_lookup d) as (_ & _ & Hother).
  rewrite !Hother by done. split; [done|]. split; [done|]. by exists n, c.
Qed.

Section call_facts.
Context `{Runtime}.

Lemma emits_allowed (r : request) : emits (allowed_call r) (serve r).
Proof.
  destruct r as [|q|body| |body|q]; simpl.
  - by apply emits_nothing.
  - intros st. unfold validated.
    destruct (masters_query q) as [p|]; [|by apply emits_nothing].
    apply emits_respond, emits_try_500, emits_bind.
    + by apply emits_get_documents.
    + intros docs. by apply emits_nothing.
  - intros st. unfold validated_body.
    destruct (Master.validate body) as [m|fields];
      [|destruct (renders body fields); by apply emits_nothing].
    by apply emits_respond, emits_try_500, emits_create_document.
  - apply emits_respond. intros st. unfold seed_demo_data.
    destruct (mapM _ seed_sample) as [sample|e]; [|by apply emits_nothing].
    apply emits_try_500, emits_bind.
    + apply emits_mapM. intros m. by apply emits_create_document.
    + intros ids. by apply emits_nothing.
  - intros st. unfold validated_body.
    destruct (BookingRequest.validate body) as [req|fields];
      [|destruct (renders body fields); by apply emits_nothing].
    apply emits_respond, emits_try_500.
    apply emits_bind; [by apply emits_nothing|]. intros client.
    apply emits_bind; [apply emits_create_document; by left|]. intros client_id.
    apply emits_bind; [by apply emits_nothing|]. intros booking.
    apply emits_bind; [apply emits_create_document; by right|].
    intros booking_id. by apply emits_nothing.
  - intros st. unfold validated.
    destruct (bookings_query q) as [p|]; [|by apply emits_nothing].
    apply emits_respond, emits_try_500, emits_bind.
    + by apply emits_get_documents.
    + intros docs. by apply emits_nothing.
Qed.

Lemma mapM_cons_run {A B} (f : A → M B) (x : A) (l : list A) (st : store) :
  mapM f (x :: l) st = (y ← f x; k ← mapM f l; mret (y :: k)) st.
Proof. reflexivity. Qed.

Lemma mapM_result_Err_inv {A B} (f : A → result exn B) (l : list A) (e : exn) :
  mapM f l = Err e → ∃ x, x ∈ l ∧ f x = Err e.
Proof.
  induction l as [|y l IH]; [done|]. simpl.
  unfold mbind, result_bind at 1.
  destruct (f y) as [b|e0] eqn:Hy.
  - unfold mbind, result_bind at 1.
    destruct (mapM f l) as [bs|e1]; [done|]. intros [= ->].
    destruct (IH eq_refl) as (x & Hx & Hfx). exists x. split; [|done].
    by apply list_elem_of_further.
  - intros [= ->]. exists y. split; [apply list_elem_of_here|done].
Qed.

Lemma create_document_disconnected (kind : string) (record : doc) (st : store) :
  connected st = false →
  create_document kind record st
  = (Err StoreUnavailable, log (Insert kind record) (Some StoreUnavailable) st).
Proof. intros Hc. unfold create_document. by rewrite Hc. Qed.

Lemma seed_sample_length (sample : list Master.t) :
  mapM (λ kw, construct (Master.validate kw)) seed_sample = Ok sample →
  length sample = 3%nat.
Proof. intros Hs. by apply mapM_result_Forall2, Forall2_length in Hs. Qed.
End call_facts.

(** X17. Each endpoint talks to the gateway about its own collections
    only: the masters listing only finds masters, the bookings listing
    only finds bookings, [POST /api/masters] and the seeding only insert
    masters, [POST /api/bookings] only inserts a client and a booking
    and never looks the master up, and the schema endpoint makes no call
    at all. *)
Theorem endpoints_make_only_their_own_calls `{Runtime}
    (r : request) (st : store) (c : call) (outcome : option exn) :
  (c, outcome) ∈ new_calls r st → allowed_call r c.
Proof.
  intros Hin. destruct (emits_allowed r st) as (new & Hlog & HP).
  rewrite (new_calls_of r st new Hlog) in Hin.
  by apply (proj1 (Forall_forall _ _) HP (c, outcome)).
Qed.

Lemma endpoints_make_only_their_own_calls_witness :
  allowed_call
    (POST_bookings {[ "master_id" := VStr "nobody";
                      "name" := VStr "Jane Doe";
                      "email" := VStr "jane@example.com";
                      "datetime_utc" := VDatetime 1717236000 ]})
    (Insert "client"
       (Client.dump {| Client.name := "Jane Doe";
                       Client.email := "jane@example.com";
                       Client.phone := None; Client.avatar := None |})).
Proof.
  refine (@endpoints_make_only_their_own_calls sample_runtime _
            (fresh true []) _ None _).
  vm_compute. apply list_elem_of_here.
Defined.

(** X18. A store that is not connected fails fast and stays as it is:
    every request leaves all collections unchanged and makes at most one
    gateway call; only the schema endpoint answers, a request with
    invalid parameters is still rejected, as [InvalidInput] or, for a
    body whose report cannot be written, with the server error of that,
    and every other request ends in the [InternalError] of
    [StoreUnavailable]. *)
Theorem disconnected_store_fails_fast `{Runtime} (r : request) (st : store) :
  connected st = false →
  collections (serve r st).2 = collections st
  ∧ (∃ new, oplog (serve r st).2 = oplog st ++ new ∧ (length new ≤ 1)%nat)
  ∧ match (serve r st).1 with
    | Ok _ => r = GET_schema
    | Err (InvalidInput _) => r ≠ GET_schema ∧ r ≠ POST_seed
    | Err (InternalError e) =>
        e = StoreUnavailable
        ∨ (r = POST_seed ∧ ∃ fields, e = ValidationError fields)
        ∨ (e = ValueError ∧ report r ≠ [] ∧ writable r = false)
    end.
Proof.
  intros Hc.
  assert (Hnil : ∀ l : list (call * option exn),
            ∃ new, l = l ++ new ∧ (length new ≤ 1)%nat).
  { intros l. exists []. rewrite app_nil_r. split; [done|]. simpl. lia. }
  assert (Hone : ∀ (l : list (call * option exn)) x,
            ∃ new, l ++ [x] = l ++ new ∧ (length new ≤ 1)%nat).
  { intros l x. exists [x]. split; [done|]. simpl. lia. }
  destruct r as [|q|body| |body|q]; cbn [serve].
  - by repeat split.
  - unfold validated. destruct (masters_query q) as [p|]; [|by repeat split].
    unfold respond. rewrite list_masters_run. cbv zeta. rewrite Hc. simpl.
    split; [done|]. split; [apply Hone|by left].
  - unfold validated_body, writable. cbn [report].
    destruct (Master.validate body) as [m|fields].
    + unfold respond, create_master, try_500.
      rewrite create_document_disconnected by done. simpl.
      split; [done|]. split; [apply Hone|by left].
    + cbn [errors_of].
      destruct (renders body fields) eqn:Hw; cbn [fst snd];
        (split; [done|]); (split; [apply Hnil|]); [done|].
      do 2 right. split; [done|]. split; [|done].
      intros ->. discriminate Hw.
  - unfold respond, seed_demo_data.
    destruct (mapM _ seed_sample) as [sample|e] eqn:Hs.
    + pose proof (seed_sample_length sample Hs) as Hlen.
      destruct sample as [|m sample]; [done|].
      unfold try_500. rewrite bind_run.
      rewrite mapM_cons_run, bind_run, create_document_disconnected by done.
      simpl.
      split; [done|]. split; [apply Hone|by left].
    + simpl. split; [done|]. split; [apply Hnil|]. right. left. split; [done|].
      apply mapM_result_Err_inv in Hs as (kw & _ & Hkw).
      unfold construct in Hkw.
      destruct (Master.validate kw) as [|fields]; [done|].
      inversion Hkw. by exists fields.
  - unfold validated_body, writable. cbn [report].
    destruct (BookingRequest.validate body) as [req|fields] eqn:Hv.
    + unfold respond.
      rewrite (create_booking_run req st
                 (BookingRequest_validate_email body req Hv)).
      rewrite create_document_disconnected by done. simpl.
      split; [done|]. split; [apply Hone|by left].
    + cbn [errors_of].
      destruct (renders body fields) eqn:Hw; cbn [fst snd];
        (split; [done|]); (split; [apply Hnil|]); [done|].
      do 2 right. split; [done|]. split; [|done].
      intros ->. discriminate Hw.
  - unfold validated. destruct (bookings_query q) as [p|]; [|by repeat split].
    unfold respond. rewrite list_bookings_run. cbv zeta. rewrite Hc. simpl.
    split; [done|]. split; [apply Hone|by left].
Qed.

Lemma disconnected_store_fails_fast_witness :
  collections (@serve sample_runtime POST_seed (fresh false [])).2
  = collections (fresh false []).
Proof.
  exact (proj1 (@disconnected_store_fails_fast sample_runtime POST_seed
                  (fresh false []) eq_refl)).
Defined.

(** * Further properties of the seeding *)

Lemma length_ids_from (n : N) (k : nat) : length (ids_from n k) = k.
Proof. revert n. induction k as [|k IH]; intros n; simpl; [done|]. by rewrite IH. Qed.

(** Inserting several records in a row when every write goes through. *)
Lemma insert_all_Ok {A} (kind : string) (g : A → doc) (xs : list A) (st : store) :
  connected st = true →
  true ∉ take (length xs) (write_plan st) →
  let r := mapM (λ x, create_document kind (g x)) xs st in
  r.1 = Ok (ids_from (next_oid st) (length xs))
  ∧ collection r.2 kind
    = collection st kind ++ with_ids (next_oid st) (g <$> xs).
Proof.
  revert st. induction xs as [|x xs IH]; intros st Hc Hplan; cbv zeta.
  - cbn. by rewrite app_nil_r.
  - rewrite mapM_cons_run, bind_run.
    assert (H1 : true ∉ take 1 (write_plan st)).
    { intros Hin. apply Hplan. cbn [length].
      destruct (write_plan st) as [|b plan]; [done|].
      cbn in *. apply list_elem_of_singleton in Hin as <-.
      apply list_elem_of_here. }
    destruct (create_document_Ok kind (g x) st Hc H1)
      as (R1 & C1 & _ & _ & Hc1 & P1 & N1).
    destruct (create_document kind (g x) st) as [r1 st1].
    cbn [fst snd] in *. subst r1.
    assert (H2 : true ∉ take (length xs) (write_plan st1)).
    { rewrite P1. intros Hin. apply Hplan. cbn [length].
      destruct (write_plan st) as [|b plan]; cbn [tail take] in *.
      - rewrite take_nil in Hin. by apply elem_of_nil in Hin.
      - by apply list_elem_of_further. }
    destruct (IH st1 Hc1 H2) as [R2 C2]. rewrite bind_run.
    destruct (mapM (λ x, create_document kind (g x)) xs st1) as [r2 st2].
    cbn [fst snd] in *. subst r2. cbn [fst snd mret M_ret length ids_from].
    split; [by rewrite N1|].
    rewrite C2, C1, N1, <- app_assoc. by rewrite fmap_cons.
Qed.

(** Inserting several records in a row when the write after the first
    [k] fails. *)
Lemma insert_all_fails {A} (kind : string) (g : A → doc) (k : nat)
    (xs : list A) (st : store) (plan : list bool) :
  connected st = true →
  write_plan st = replicate k false ++ true :: plan →
  (k < length xs)%nat →
  let r := mapM (λ x, create_document kind (g x)) xs st in
  r.1 = Err StoreWriteError
  ∧ collection r.2 kind
    = collection st kind ++ with_ids (next_oid st) (g <$> take k xs).
Proof.
  revert xs st. induction k as [|k IH]; intros xs st Hc Hplan Hlen; cbv zeta;
    (destruct xs as [|x xs]; [cbn [length] in Hlen; lia|]);
    cbn [length] in Hlen; rewrite mapM_cons_run, bind_run.
  - rewrite (create_document_writes_failed kind (g x) st plan Hc Hplan).
    cbn [fst snd]. split; [done|].
    rewrite collection_log, collection_set_write_plan. cbn.
    by rewrite app_nil_r.
  - assert (H1 : true ∉ take 1 (write_plan st)).
    { rewrite Hplan. cbn. by intros Hin%list_elem_of_singleton. }
    destruct (create_document_Ok kind (g x) st Hc H1)
      as (R1 & C1 & _ & _ & Hc1 & P1 & N1).
    destruct (create_document kind (g x) st) as [r1 st1].
    cbn [fst snd] in *. subst r1.
    rewrite Hplan in P1. cbn [replicate app tail] in P1.
    destruct (IH xs st1 Hc1 P1 ltac:(lia)) as [R2 C2]. rewrite bind_run.
    destruct (mapM (λ x, create_document kind (g x)) xs st1) as [r2 st2].
    cbn [fst snd] in *. subst r2. cbn [fst snd].
    split; [done|].
    rewrite C2, C1, N1, <- app_assoc. by rewrite firstn_cons, fmap_cons.
Qed.

(** X19. Seeding, once its three samples validate, inserts them one
    after the other.  When the store takes three writes it answers with
    the count 3 and the three identifiers, and the master collection
    gains the three samples in order.  When one of the three writes
    fails it answers with the [InternalError] of that failure and the
    samples written before stay in the store: seeding is not undone. *)
Theorem seeding_appends_and_is_not_undone `{Runtime}
    (sample : list Master.t) (st : store) :
  mapM (λ kw, construct (Master.validate kw)) seed_sample = Ok sample →
  connected st = true →
  length sample = 3%nat
  ∧ (true ∉ take 3 (write_plan st) →
     (seed_demo_data st).1 = Ok (3%nat, ids_from (next_oid st) 3)
     ∧ collection (seed_demo_data st).2 "master"
       = collection st "master"
         ++ with_ids (next_oid st) (Master.dump <$> sample))
  ∧ (∀ k plan, (k < 3)%nat →
     write_plan st = replicate k false ++ true :: plan →
     (seed_demo_data st).1 = Err (InternalError StoreWriteError)
     ∧ collection (seed_demo_data st).2 "master"
       = collection st "master"
         ++ with_ids (next_oid st) (Master.dump <$> take k sample)).
Proof.
  intros Hs Hc. pose proof (seed_sample_length sample Hs) as Hlen.
  split; [done|]. unfold seed_demo_data. rewrite Hs. unfold try_500.
  split.
  - intros Hplan. rewrite bind_run. rewrite <- Hlen in Hplan.
    destruct (insert_all_Ok "master" Master.dump sample st Hc Hplan) as [R C].
    destruct (mapM (λ m, create_document "master" (Master.dump m)) sample st)
      as [r1 st1]. cbn [fst snd] in *. subst r1.
    by rewrite length_ids_from, Hlen.
  - intros k plan Hk Hplan. rewrite bind_run. rewrite <- Hlen in Hk.
    destruct (insert_all_fails "master" Master.dump k sample st plan Hc Hplan Hk)
      as [R C].
    destruct (mapM (λ m, create_document "master" (Master.dump m)) sample st)
      as [r1 st1]. cbn [fst snd] in *. by subst r1.
Qed.

Lemma seeding_appends_and_is_not_undone_witness :
  (@seed_demo_data sample_runtime (fresh true [false; true])).1
  = Err (InternalError StoreWriteError)
  ∧ length (collection
              (@seed_demo_data sample_runtime (fresh true [false; true])).2
              "master") = 1%nat.
Proof.
  assert (Hs : ∃ sample,
            mapM (λ kw, construct (@Master.validate sample_runtime kw))
              seed_sample = Ok sample).
  { eexists. vm_compute. reflexivity. }
  destruct Hs as [sample Hs].
  destruct (@seeding_appends_and_is_not_undone sample_runtime sample
              (fresh true [false; true]) Hs eq_refl)
    as (Hlen & _ & Hfail).
  destruct (Hfail 1%nat [] ltac:(lia) eq_refl) as [Hr Hcoll].
  split; [exact Hr|]. rewrite Hcoll.
  destruct sample as [|m sample]; [discriminate Hlen|]. reflexivity.
Defined.
